(** * Locadora: the rental back end of [server.js]

    A shallow embedding of the Express handlers of [src/server.js] (the
    variant with global table clients, identical route by route to
    [src/unnamed/part_000]) over a model of the three Azure tables, and the
    verification of the rental life cycle: rental creation, cancellation,
    the guarded client deletion and the listing of available vehicles.

    Conventions of the embedding.
    - A table holds one partition only (['Veiculo'], ['Cliente'],
      ['Locacao']), so an entity is addressed by its [rowKey] and a table is
      a [gmap string _]; the [rowKey] of an entity is its key in the map.
    - A request field is absent ([None], JavaScript's [undefined]) or a
      string; [parseInt]/[parseFloat] results are carried as values of an
      abstract type [num], since no handler computes on them. The two
      required fields of the JSON body of [POST /locacoes] are also taken
      as any JSON value, in [postLocacoesJson], which on strings is
      [postLocacoes].
    - Every call to the table or blob service may throw: a world carries the
      schedule [falhas] of the coming calls, [Some e] making a call throw
      [e] and leave the tables as they are. The empty schedule is the
      service answering every call. The service refusing an entity, for a
      row key that holds [/], [\], [#] or [?] say, is such a throw.
    - [Date.now()] is an input of the handlers that read the clock. *)

From stdpp Require Import gmap strings list fin_maps pretty.
From Stdlib Require Import ZArith.

Open Scope Z_scope.

(** ** Entities *)

Inductive Status := ativa | cancelada.

Definition status_eqb (a b : Status) : bool :=
  match a, b with
  | ativa, ativa | cancelada, cancelada => true
  | _, _ => false
  end.

(** The error objects thrown by the SDK: [err.statusCode], [err.message]. *)
Record RestError := { statusCode : Z; message : string }.

Definition naoEncontrado : RestError :=
  {| statusCode := 404; message := "ResourceNotFound" |}.
Definition jaExiste : RestError :=
  {| statusCode := 409; message := "EntityAlreadyExists" |}.

(** The value of the [disponivel] field of a registration body. *)
Inductive JsValor := Indefinido | Booleano (b : bool) | Texto (s : string).

(** JavaScript truthiness of a field that is absent or a string. *)
Definition truthy (o : option string) : bool :=
  match o with
  | Some s => negb (String.eqb s "")
  | None => false
  end.

(** [o || '---'] *)
Definition ouPadrao (o : option string) : string :=
  match o with
  | Some s => if String.eqb s "" then "---" else s
  | None => "---"
  end.

(** The string a truthy field holds. *)
Definition texto (o : option string) : string := default "" o.

(** [Date.now().toString()] *)
Definition toString (agora : N) : string := pretty agora.

Section Locadora.

Context {num : Type}.

Record Veiculo := {
  marca : option string;
  modelo : option string;
  ano : num;
  urlImagem : string;
  precoDiaria : num;
  disponivel : bool
}.

Record Cliente := {
  nome : option string;
  email : option string;
  telefone : option string
}.

Record Locacao := {
  placaVeiculo : string;
  l_marca : string;
  l_modelo : string;
  clienteId : string;
  dataInicio : option string;
  dataFim : option string;
  valor : num;
  status : Status
}.

(** The property bags of the two [updateEntity(..., "Merge")] calls on
    vehicles and rentals: every other property is left as stored. *)
Definition mergeDisponivel (b : bool) (v : Veiculo) : Veiculo :=
  {| marca := marca v; modelo := modelo v; ano := ano v;
     urlImagem := urlImagem v; precoDiaria := precoDiaria v;
     disponivel := b |}.

Definition mergeStatus (s : Status) (l : Locacao) : Locacao :=
  {| placaVeiculo := placaVeiculo l; l_marca := l_marca l;
     l_modelo := l_modelo l; clienteId := clienteId l;
     dataInicio := dataInicio l; dataFim := dataFim l; valor := valor l;
     status := s |}.

(** A merged property that is [undefined] is not sent, hence not changed. *)
Definition mesclar (novo antigo : option string) : option string :=
  match novo with Some _ => novo | None => antigo end.

Definition mergeCliente (n e t : option string) (c : Cliente) : Cliente :=
  {| nome := mesclar n (nome c); email := mesclar e (email c);
     telefone := mesclar t (telefone c) |}.

(** ** The store and the monad of the handlers *)

Record Store := {
  veiculos : gmap string Veiculo;
  clientes : gmap string Cliente;
  locacoes : gmap string Locacao
}.

Definition vazio : Store :=
  {| veiculos := ∅; clientes := ∅; locacoes := ∅ |}.

Record World := { store : Store; falhas : list (option RestError) }.

(** A computation returns a value or throws; the writes done before a throw
    stay done. *)
Definition M (A : Type) : Type := World → (RestError + A) * World.

Definition ret {A} (a : A) : M A := λ w, (inr a, w).

Definition bind {A B} (m : M A) (k : A → M B) : M B :=
  λ w, match m w with
       | (inr a, w') => k a w'
       | (inl e, w') => (inl e, w')
       end.

Definition throw {A} (e : RestError) : M A := λ w, (inl e, w).

(** [try { m } catch (err) { h err }] *)
Definition tryCatch {A} (m : M A) (h : RestError → M A) : M A :=
  λ w, match m w with
       | (inl e, w') => h e w'
       | r => r
       end.

Notation "'await' x <- m ; k" := (bind m (λ x, k))
  (at level 10, x name, m at level 100, k at level 200, only parsing).

(** One round trip to the service: it consumes one entry of the schedule. *)
Definition chamada : M unit :=
  λ w, match falhas w with
       | Some e :: fs => (inl e, {| store := store w; falhas := fs |})
       | None :: fs => (inr (), {| store := store w; falhas := fs |})
       | [] => (inr (), w)
       end.

Definition lerStore : M Store := λ w, (inr (store w), w).

Definition gravarStore (s : Store) : M unit :=
  λ w, (inr (), {| store := s; falhas := falhas w |}).


(** ** The table client *)

(** A [TableClient]: the table it reads and writes in the store. *)
Record TableClient (E : Type) := {
  ler : Store → gmap string E;
  gravar : gmap string E → Store → Store
}.
Arguments ler {E} _ _.
Arguments gravar {E} _ _ _.

Definition tabelaVeiculos : TableClient Veiculo :=
  {| ler := veiculos;
     gravar := λ t s, {| veiculos := t; clientes := clientes s;
                         locacoes := locacoes s |} |}.

Definition tabelaClientes : TableClient Cliente :=
  {| ler := clientes;
     gravar := λ t s, {| veiculos := veiculos s; clientes := t;
                         locacoes := locacoes s |} |}.

Definition tabelaLocacoes : TableClient Locacao :=
  {| ler := locacoes;
     gravar := λ t s, {| veiculos := veiculos s; clientes := clientes s;
                         locacoes := t |} |}.

(** [getEntity]: throws 404 when there is no entity under the key. *)
Definition getEntity {E} (t : TableClient E) (rowKey : string) : M E :=
  await _ <- chamada;
  await s <- lerStore;
  match ler t s !! rowKey with
  | Some e => ret e
  | None => throw naoEncontrado
  end.

(** [createEntity]: throws 409 when the key is taken, and writes nothing. *)
Definition createEntity {E} (t : TableClient E) (rowKey : string) (e : E)
  : M unit :=
  await _ <- chamada;
  await s <- lerStore;
  match ler t s !! rowKey with
  | Some _ => throw jaExiste
  | None => gravarStore (gravar t (<[rowKey := e]> (ler t s)) s)
  end.

(** [updateEntity(_, "Merge")]: the properties sent, [bag], are written over
    the stored entity; throws 404 when there is none. *)
Definition updateEntity {E} (t : TableClient E) (rowKey : string)
  (bag : E → E) : M unit :=
  await _ <- chamada;
  await s <- lerStore;
  match ler t s !! rowKey with
  | Some e => gravarStore (gravar t (<[rowKey := bag e]> (ler t s)) s)
  | None => throw naoEncontrado
  end.

(** [deleteEntity]: throws 404 when there is no entity under the key. *)
Definition deleteEntity {E} (t : TableClient E) (rowKey : string) : M unit :=
  await _ <- chamada;
  await s <- lerStore;
  match ler t s !! rowKey with
  | Some _ => gravarStore (gravar t (delete rowKey (ler t s)) s)
  | None => throw naoEncontrado
  end.

(** [listEntities({ queryOptions: { filter } })]: the entities the filter
    keeps, each with its [rowKey], in the order of the scan. *)
Definition listEntities {E} (t : TableClient E) (filtro : E → bool)
  : M (list (string * E)) :=
  await _ <- chamada;
  await s <- lerStore;
  ret (filter (λ kv, filtro kv.2 = true) (map_to_list (ler t s))).

(** [blockBlobClient.uploadData]: a call to the blob service. *)
Definition uploadData : M unit := chamada.

(** ** Responses *)

(** The bodies the handlers send: [{sucesso, mensagem}], [{error}], and the
    array of vehicle summaries, a summary being the stored vehicle with its
    [rowKey] as [placa]. *)
Inductive Corpo :=
| CSucesso (sucesso : bool) (mensagem : option string)
| CErro (error : string)
| CVeiculos (vs : list (string * Veiculo)).

Record Resposta := { codigo : Z; corpo : Corpo }.

(** [res.json(b)] and [res.status(c).json(b)] *)
Definition json (b : Corpo) : Resposta := {| codigo := 200; corpo := b |}.
Definition statusJson (c : Z) (b : Corpo) : Resposta :=
  {| codigo := c; corpo := b |}.

(** ** Request bodies *)

(** [POST /veiculos]: [cv_arquivo] is the URL of the blob when an image
    comes with the request; [cv_ano] and [cv_precoDiaria] are the results of
    [parseInt] and [parseFloat]; the plate, which becomes the [rowKey], is a
    string. *)
Record CorpoVeiculo := {
  cv_marca : option string;
  cv_modelo : option string;
  cv_ano : num;
  cv_placa : string;
  cv_precoDiaria : num;
  cv_disponivel : JsValor;
  cv_arquivo : option string
}.

Record CorpoCliente := {
  cc_nome : option string;
  cc_email : option string;
  cc_telefone : option string
}.

(** [POST /locacoes] on fields that are strings or absent;
    [CorpoLocacaoJson] below takes the two required fields as any JSON
    value. *)
Record CorpoLocacao := {
  cl_placaVeiculo : option string;
  cl_clienteId : option string;
  cl_dataInicio : option string;
  cl_dataFim : option string;
  cl_valor : num
}.

(** [disponivel === 'true' || disponivel === true] *)
Definition ehVerdadeiro (d : JsValor) : bool :=
  match d with
  | Texto s => String.eqb s "true"
  | Booleano b => b
  | Indefinido => false
  end.

(** [a === b] on values that are absent or strings. *)
Definition estritamenteIgual (a b : option string) : bool :=
  match a, b with
  | Some s, Some t => String.eqb s t
  | None, None => true
  | _, _ => false
  end.

(** ** The handlers *)

(** [POST /veiculos] *)
Definition postVeiculos (b : CorpoVeiculo) : M Resposta :=
  tryCatch
    (await url <- match cv_arquivo b with
                  | Some u => await _ <- uploadData; ret u
                  | None => ret ""
                  end;
     await _ <- createEntity tabelaVeiculos (cv_placa b)
       {| marca := cv_marca b; modelo := cv_modelo b; ano := cv_ano b;
          urlImagem := url; precoDiaria := cv_precoDiaria b;
          disponivel := ehVerdadeiro (cv_disponivel b) |};
     ret (json (CSucesso true None)))
    (λ err, ret (statusJson 500 (CErro (message err)))).

(** [POST /clientes] *)
Definition postClientes (agora : N) (b : CorpoCliente) : M Resposta :=
  tryCatch
    (await _ <- createEntity tabelaClientes (toString agora)
       {| nome := cc_nome b; email := cc_email b;
          telefone := cc_telefone b |};
     ret (json (CSucesso true None)))
    (λ err, ret (statusJson 500 (CErro (message err)))).

(** [PUT /clientes/:id] *)
Definition putClientes (id : string) (b : CorpoCliente) : M Resposta :=
  tryCatch
    (await cliente <- getEntity tabelaClientes id;
     await _ <- updateEntity tabelaClientes id
       (mergeCliente (cc_nome b) (cc_email b) (cc_telefone b));
     ret (json (CSucesso true None)))
    (λ err, ret (statusJson 500 (CErro (message err)))).

(** [GET /veiculos/disponiveis?marca&modelo] *)
Definition passaFiltro (q_marca q_modelo : option string) (v : Veiculo)
  : bool :=
  (negb (truthy q_marca) || estritamenteIgual (marca v) q_marca)
  && (negb (truthy q_modelo) || estritamenteIgual (modelo v) q_modelo).

Definition getVeiculosDisponiveis (q_marca q_modelo : option string)
  : M Resposta :=
  tryCatch
    (await iter <- listEntities tabelaVeiculos (λ v, disponivel v);
     ret (json (CVeiculos
       (filter (λ kv, passaFiltro q_marca q_modelo kv.2 = true) iter))))
    (λ err, ret (statusJson 500 (CErro (message err)))).

(** The loop of [DELETE /clientes/:id] over the rentals, with its [break]:
    the flag [temLocacoesAtivas] and the number of rentals the loop has
    looked at. *)
Fixpoint temLocacoesAtivas (id : string) (iter : list (string * Locacao))
  : bool * nat :=
  match iter with
  | [] => (false, 0%nat)
  | (_, locacao) :: resto =>
      if String.eqb (clienteId locacao) id
         && status_eqb (status locacao) ativa
      then (true, 1%nat)
      else let r := temLocacoesAtivas id resto in (r.1, S r.2)
  end.

(** [DELETE /clientes/:id] *)
Definition deleteClientes (id : string) : M Resposta :=
  tryCatch
    (await cliente <- getEntity tabelaClientes id;
     await locacoesIter <- listEntities tabelaLocacoes (λ _, true);
     if (temLocacoesAtivas id locacoesIter).1
     then ret (statusJson 400 (CSucesso false
            (Some "Não é possível excluir cliente com locações ativas")))
     else
       await _ <- deleteEntity tabelaClientes id;
       ret (json (CSucesso true (Some "Cliente excluído com sucesso"))))
    (λ err,
       if statusCode err =? 404
       then ret (statusJson 404 (CSucesso false
              (Some "Cliente não encontrado")))
       else ret (statusJson 500 (CSucesso false (Some (message err))))).

(** The [entidade] that [POST /locacoes] stores, [veiculo] being what the
    lookup of the plate has given ([None] for [null]). *)
Definition entidade (b : CorpoLocacao) (veiculo : option Veiculo) : Locacao :=
  {| placaVeiculo := texto (cl_placaVeiculo b);
     l_marca := ouPadrao (v ← veiculo; marca v);
     l_modelo := ouPadrao (v ← veiculo; modelo v);
     clienteId := texto (cl_clienteId b);
     dataInicio := cl_dataInicio b;
     dataFim := cl_dataFim b;
     valor := cl_valor b;
     status := ativa |}.

(** [POST /locacoes] *)
Definition postLocacoes (agora : N) (b : CorpoLocacao) : M Resposta :=
  tryCatch
    (if negb (truthy (cl_placaVeiculo b)) || negb (truthy (cl_clienteId b))
     then ret (statusJson 400 (CSucesso false
            (Some "Campos obrigatórios ausentes.")))
     else
       let placa := texto (cl_placaVeiculo b) in
       await veiculo <-
         tryCatch (await v <- getEntity tabelaVeiculos placa; ret (Some v))
                  (λ _, ret None);
       await _ <-
         createEntity tabelaLocacoes (toString agora) (entidade b veiculo);
       await _ <- match veiculo with
                  | Some _ =>
                      updateEntity tabelaVeiculos placa (mergeDisponivel false)
                  | None => ret ()
                  end;
       ret (json (CSucesso true None)))
    (λ err, ret (statusJson 500 (CSucesso false (Some (message err))))).

(** ** The body of [POST /locacoes] as [express.json()] leaves it

    [req.body] is parsed JSON: [placaVeiculo] and [clienteId] reach the
    guard [!placaVeiculo || !clienteId] as any JSON value, or as [undefined]
    when the body has no such key. *)
Inductive Json :=
| JAusente
| JNulo
| JBooleano (b : bool)
| JNumero (n : num)
| JTexto (s : string)
| JComposto.

(** [n === 0], which [-0] satisfies too; JSON denotes no [NaN]. *)
Context (ehZero : num → bool).

(** JavaScript truthiness of a JSON value; [JComposto], an array or an
    object, is truthy whatever it holds. *)
Definition truthyJson (x : Json) : bool :=
  match x with
  | JAusente | JNulo => false
  | JBooleano b => b
  | JNumero n => negb (ehZero n)
  | JTexto s => negb (String.eqb s "")
  | JComposto => true
  end.

(** The falsy values one by one: [undefined], [null], [false], [0] and
    ['']. *)
Definition falsy (x : Json) : Prop :=
  x = JAusente ∨ x = JNulo ∨ x = JBooleano false
  ∨ (∃ n, x = JNumero n ∧ ehZero n = true) ∨ x = JTexto "".

Record CorpoLocacaoJson := {
  cj_placaVeiculo : Json;
  cj_clienteId : Json;
  cj_dataInicio : option string;
  cj_dataFim : option string;
  cj_valor : num
}.

(** The JSON body whose fields are the strings of [b]. *)
Definition campoJson (o : option string) : Json :=
  match o with
  | Some s => JTexto s
  | None => JAusente
  end.

Definition corpoJson (b : CorpoLocacao) : CorpoLocacaoJson :=
  {| cj_placaVeiculo := campoJson (cl_placaVeiculo b);
     cj_clienteId := campoJson (cl_clienteId b);
     cj_dataInicio := cl_dataInicio b;
     cj_dataFim := cl_dataFim b;
     cj_valor := cl_valor b |}.

Definition comoTexto (x : Json) : option string :=
  match x with
  | JTexto s => Some s
  | _ => None
  end.

(** The body when both required fields are strings. *)
Definition soTextos (c : CorpoLocacaoJson) : option CorpoLocacao :=
  placa ← comoTexto (cj_placaVeiculo c);
  cliente ← comoTexto (cj_clienteId c);
  Some {| cl_placaVeiculo := Some placa; cl_clienteId := Some cliente;
          cl_dataInicio := cj_dataInicio c; cl_dataFim := cj_dataFim c;
          cl_valor := cj_valor c |}.

(** The tables of the model hold strings under [placaVeiculo] and
    [clienteId]. When one of the two is truthy and not a string ([true], a
    number other than 0, an array, an object), the lookup and the writes of
    the handler hand it to the table client, and what the client then does
    is decided by the SDK, not by this repository: [comOutrosValores] stands
    for those calls, and it is any computation whatever. *)
Context (comOutrosValores : N → CorpoLocacaoJson → M unit).

(** [POST /locacoes] past its guard, on a body of strings. *)
Definition gravarLocacao (agora : N) (b : CorpoLocacao) : M Resposta :=
  let placa := texto (cl_placaVeiculo b) in
  await veiculo <-
    tryCatch (await v <- getEntity tabelaVeiculos placa; ret (Some v))
             (λ _, ret None);
  await _ <-
    createEntity tabelaLocacoes (toString agora) (entidade b veiculo);
  await _ <- match veiculo with
             | Some _ =>
                 updateEntity tabelaVeiculos placa (mergeDisponivel false)
             | None => ret ()
             end;
  ret (json (CSucesso true None)).

(** [POST /locacoes] on the body as parsed. *)
Definition postLocacoesJson (agora : N) (c : CorpoLocacaoJson) : M Resposta :=
  tryCatch
    (if negb (truthyJson (cj_placaVeiculo c))
        || negb (truthyJson (cj_clienteId c))
     then ret (statusJson 400 (CSucesso false
            (Some "Campos obrigatórios ausentes.")))
     else
       match soTextos c with
       | Some b => gravarLocacao agora b
       | None =>
           await _ <- comOutrosValores agora c;
           ret (json (CSucesso true None))
       end)
    (λ err, ret (statusJson 500 (CSucesso false (Some (message err))))).

(** [POST /cancelar-locacao] *)
Definition postCancelarLocacao (locacaoId : string) : M Resposta :=
  tryCatch
    (await locacao <- getEntity tabelaLocacoes locacaoId;
     await _ <- updateEntity tabelaLocacoes locacaoId (mergeStatus cancelada);
     await _ <-
       (if negb (String.eqb (placaVeiculo locacao) "")
        then
          tryCatch
            (await veiculo <- getEntity tabelaVeiculos (placaVeiculo locacao);
             updateEntity tabelaVeiculos (placaVeiculo locacao)
               (mergeDisponivel true))
            (λ _, ret ())
        else ret ());
     ret (json (CSucesso true None)))
    (λ err, ret (statusJson 500 (CErro (message err)))).

(** ** Requests and runs *)

(** The requests that write a table, and the listing of the available
    vehicles. The other routes ([GET /clientes], [/marcas], [/modelos],
    [/veiculos/alugados], [POST /upload-veiculo]) write no table. *)
Inductive Requisicao :=
| PostVeiculos (b : CorpoVeiculo)
| PostClientes (agora : N) (b : CorpoCliente)
| PutClientes (id : string) (b : CorpoCliente)
| DeleteClientes (id : string)
| GetVeiculosDisponiveis (q_marca q_modelo : option string)
| PostLocacoes (agora : N) (b : CorpoLocacao)
| PostCancelarLocacao (locacaoId : string).

Definition executar (r : Requisicao) : M Resposta :=
  match r with
  | PostVeiculos b => postVeiculos b
  | PostClientes agora b => postClientes agora b
  | PutClientes id b => putClientes id b
  | DeleteClientes id => deleteClientes id
  | GetVeiculosDisponiveis m d => getVeiculosDisponiveis m d
  | PostLocacoes agora b => postLocacoes agora b
  | PostCancelarLocacao id => postCancelarLocacao id
  end.

(** The world in which the service answers every call. *)
Definition nominal (s : Store) : World := {| store := s; falhas := [] |}.

(** The store a request leaves behind, under a schedule of faults. *)
Definition apos (r : Requisicao) (fs : list (option RestError)) (s : Store)
  : Store :=
  store (executar r {| store := s; falhas := fs |}).2.

(** The states the back end can be in: the empty tables, and what any
    request under any schedule of faults makes of a reachable state. *)
Inductive alcancavel : Store → Prop :=
| alc_vazio : alcancavel vazio
| alc_passo s r fs : alcancavel s → alcancavel (apos r fs s).

(** A sequence of requests, each under its own schedule of faults. *)
Definition executarTodas (rs : list (Requisicao * list (option RestError)))
  (s : Store) : Store :=
  foldl (λ s' rf, apos rf.1 rf.2 s') s rs.

(** Every stored rental names a plate and a client, as the validation of
    [POST /locacoes] requires of the rentals it stores. *)
Definition bemFormado (s : Store) : Prop :=
  ∀ id l, locacoes s !! id = Some l →
    placaVeiculo l ≠ "" ∧ clienteId l ≠ "".

(** The attributes of a vehicle other than its flag [disponivel]. *)
Definition mesmosAtributos (v v' : Veiculo) : Prop :=
  marca v' = marca v ∧ modelo v' = modelo v ∧ ano v' = ano v
  ∧ precoDiaria v' = precoDiaria v ∧ urlImagem v' = urlImagem v.

(** The consistency of the flag with the rentals: a vehicle is unavailable
    exactly when an active rental references its plate. *)
Definition consistente (s : Store) : Prop :=
  ∀ p v, veiculos s !! p = Some v →
    (disponivel v = false
     ↔ ∃ id l, locacoes s !! id = Some l
               ∧ placaVeiculo l = p ∧ status l = ativa).

(** The discipline of the front end: a vehicle is registered available, a
    rental is asked for a stored vehicle that is available, and only an
    active rental is cancelled. *)
Definition disciplinada (s : Store) (r : Requisicao) : Prop :=
  match r with
  | PostVeiculos b => ehVerdadeiro (cv_disponivel b) = true
  | PostLocacoes _ b =>
      ∃ v, veiculos s !! texto (cl_placaVeiculo b) = Some v
           ∧ disponivel v = true
  | PostCancelarLocacao id =>
      ∀ l, locacoes s !! id = Some l → status l = ativa
  | _ => True
  end.

(** The states reached under that discipline with the service answering
    every call. *)
Inductive alcancavelDisciplinado : Store → Prop :=
| ad_vazio : alcancavelDisciplinado vazio
| ad_passo s r :
    alcancavelDisciplinado s → disciplinada s r →
    alcancavelDisciplinado (apos r [] s).

(** * Verification *)

(** ** Running a handler *)

Ltac desdobra :=
  unfold apos, executar, postVeiculos, postClientes, putClientes,
    deleteClientes, getVeiculosDisponiveis, postLocacoes,
    postCancelarLocacao, getEntity, createEntity, updateEntity,
    deleteEntity, listEntities, uploadData, chamada, lerStore, gravarStore,
    tryCatch, bind, ret, throw, nominal, json, statusJson;
  simpl.

Lemma truthy_texto (o : option string) :
  truthy o = true → o = Some (texto o) ∧ texto o ≠ "".
Proof.
  destruct o as [x|]; simpl; [|discriminate].
  intros H. split; [reflexivity|].
  intros ->. discriminate.
Qed.

Lemma ouPadrao_truthy (o : option string) :
  truthy o = true → ouPadrao o = texto o.
Proof.
  destruct o as [x|]; simpl; [|discriminate].
  destruct (String.eqb x ""); [discriminate | reflexivity].
Qed.

Lemma ouPadrao_falsy (o : option string) :
  truthy o = false → ouPadrao o = "---".
Proof.
  destruct o as [x|]; simpl; [|reflexivity].
  destruct (String.eqb x ""); [reflexivity | discriminate].
Qed.

(** ** Rental creation *)

(** C1 (as amended). A rental creation naming an existing vehicle, with
    both required fields. The rental it builds has status [ativa] and the
    brand and model of the vehicle, the placeholder ["---"] standing for one
    that is empty or missing. When the service answers every call, the
    handler answers success exactly when the identifier is not taken: it
    then stores that rental and sets the flag [disponivel] of the vehicle to
    [false], nothing else changing, and otherwise answers 500 and writes
    nothing. When only the write of the flag fails, the handler answers 500
    and the rental stays stored while the vehicle is as it was; when the
    write of the rental fails, nothing is written at all, so the flag is
    never written before the rental. *)
Theorem locacao_gravada_antes_da_baixa (agora : N) (b : CorpoLocacao)
  (s : Store) (v : Veiculo) :
  truthy (cl_placaVeiculo b) = true →
  truthy (cl_clienteId b) = true →
  veiculos s !! texto (cl_placaVeiculo b) = Some v →
  (status (entidade b (Some v)) = ativa
   ∧ Some (placaVeiculo (entidade b (Some v))) = cl_placaVeiculo b
   ∧ Some (clienteId (entidade b (Some v))) = cl_clienteId b
   ∧ (truthy (marca v) = true → Some (l_marca (entidade b (Some v))) = marca v)
   ∧ (truthy (marca v) = false → l_marca (entidade b (Some v)) = "---")
   ∧ (truthy (modelo v) = true →
      Some (l_modelo (entidade b (Some v))) = modelo v)
   ∧ (truthy (modelo v) = false → l_modelo (entidade b (Some v)) = "---"))
  ∧ (locacoes s !! toString agora = None →
     executar (PostLocacoes agora b) (nominal s)
     = (inr (json (CSucesso true None)),
        nominal
          {| veiculos :=
               <[texto (cl_placaVeiculo b) := mergeDisponivel false v]>
                 (veiculos s);
             clientes := clientes s;
             locacoes := <[toString agora := entidade b (Some v)]>
                           (locacoes s) |})
     ∧ disponivel (mergeDisponivel false v) = false
     ∧ ∀ e : RestError,
         executar (PostLocacoes agora b)
           {| store := s; falhas := [None; None; Some e] |}
         = (inr (statusJson 500 (CSucesso false (Some (message e)))),
            nominal
              {| veiculos := veiculos s;
                 clientes := clientes s;
                 locacoes := <[toString agora := entidade b (Some v)]>
                               (locacoes s) |}))
  ∧ (is_Some (locacoes s !! toString agora) →
     executar (PostLocacoes agora b) (nominal s)
     = (inr (statusJson 500 (CSucesso false (Some (message jaExiste)))),
        nominal s))
  ∧ (∀ e : RestError,
       executar (PostLocacoes agora b)
         {| store := s; falhas := [None; Some e] |}
       = (inr (statusJson 500 (CSucesso false (Some (message e)))),
          nominal s)).
Proof.
  intros Hp Hc Hv.
  split; [|split; [|split]].
  - simpl. split; [reflexivity|].
    split; [symmetry; apply truthy_texto, Hp|].
    split; [symmetry; apply truthy_texto, Hc|].
    repeat split.
    + intros H. rewrite (ouPadrao_truthy _ H).
      symmetry. apply truthy_texto, H.
    + apply ouPadrao_falsy.
    + intros H. rewrite (ouPadrao_truthy _ H).
      symmetry. apply truthy_texto, H.
    + apply ouPadrao_falsy.
  - intros Hfresh. split; [|split; [reflexivity|]].
    + desdobra. rewrite Hp, Hc. simpl. rewrite Hv. simpl.
      rewrite Hfresh. simpl. rewrite Hv. simpl. reflexivity.
    + intros e. desdobra. rewrite Hp, Hc. simpl. rewrite Hv. simpl.
      rewrite Hfresh. simpl. reflexivity.
  - intros [l Hl]. desdobra. rewrite Hp, Hc. simpl. rewrite Hv. simpl.
    rewrite Hl. simpl. reflexivity.
  - intros e. desdobra. rewrite Hp, Hc. simpl. rewrite Hv. simpl.
    destruct s; reflexivity.
Qed.

Lemma truthyJson_false_iff (x : Json) : truthyJson x = false ↔ falsy x.
Proof.
  unfold falsy. destruct x as [| |[]|n|x|]; simpl.
  - tauto.
  - tauto.
  - split; [discriminate|]. intros [?|[?|[?|[(? & ? & ?)|?]]]]; discriminate.
  - tauto.
  - rewrite negb_false_iff. split.
    + intros H. right; right; right; left. eauto.
    + intros [?|[?|[?|[(m & [= <-] & H)|?]]]]; try discriminate. exact H.
  - destruct (String.eqb_spec x "") as [->|Hx]; simpl.
    + split; [intros _; repeat right; reflexivity | reflexivity].
    + split; [discriminate|].
      intros [?|[?|[?|[(? & ? & ?)|?]]]]; congruence.
  - split; [discriminate|]. intros [?|[?|[?|[(? & ? & ?)|?]]]]; discriminate.
Qed.

(** On a body of strings the handler is [postLocacoes]. *)
Lemma postLocacoesJson_texto (agora : N) (b : CorpoLocacao) (w : World) :
  postLocacoesJson agora (corpoJson b) w = postLocacoes agora b w.
Proof.
  unfold postLocacoesJson, postLocacoes, gravarLocacao, corpoJson, soTextos.
  destruct b as [[p|] [i|] di df v]; simpl; try reflexivity.
  destruct (String.eqb p ""); reflexivity.
Qed.

(** Past the guard the handler answers 200 or 500. *)
Lemma gravarLocacao_responde (agora : N) (b : CorpoLocacao) (w : World) :
  ∃ (resp : Resposta) (w' : World),
    tryCatch (gravarLocacao agora b)
      (λ err, ret (statusJson 500 (CSucesso false (Some (message err))))) w
    = (inr resp, w')
    ∧ codigo resp ≠ 400.
Proof.
  destruct w as [s fs]. unfold gravarLocacao. desdobra.
  repeat (case_match; simpl in *; simplify_eq);
    (eexists _, _; split; [reflexivity | discriminate]).
Qed.

(** C4 (as amended). The creation handler gets [placaVeiculo] and
    [clienteId] as JSON values. Under every schedule of faults it answers,
    and it answers 400 exactly when one of the two is falsy, that is absent,
    [null], [false], the number 0 or the empty string, in which case nothing
    is written. When both are non-empty strings, the plate names no vehicle,
    the identifier is fresh and the service answers every call, the handler
    answers success and stores the rental with ["---"] for brand and model,
    the vehicles being left as they were. *)
Theorem locacao_validacao (agora : N) :
  (∀ (c : CorpoLocacaoJson) (w : World), ∃ (resp : Resposta) (w' : World),
      postLocacoesJson agora c w = (inr resp, w')
      ∧ (codigo resp = 400 ↔
         falsy (cj_placaVeiculo c) ∨ falsy (cj_clienteId c))
      ∧ (codigo resp = 400 → w' = w))
  ∧ (∀ (placa cliente : string) (inicio fim : option string) (v : num)
       (s : Store),
      placa ≠ "" →
      cliente ≠ "" →
      veiculos s !! placa = None →
      locacoes s !! toString agora = None →
      postLocacoesJson agora
        {| cj_placaVeiculo := JTexto placa; cj_clienteId := JTexto cliente;
           cj_dataInicio := inicio; cj_dataFim := fim; cj_valor := v |}
        (nominal s)
      = (inr (json (CSucesso true None)),
         nominal
           {| veiculos := veiculos s;
              clientes := clientes s;
              locacoes :=
                <[toString agora :=
                    {| placaVeiculo := placa;
                       l_marca := "---"; l_modelo := "---";
                       clienteId := cliente;
                       dataInicio := inicio;
                       dataFim := fim;
                       valor := v;
                       status := ativa |}]> (locacoes s) |})).
Proof.
  split.
  - intros c w. setoid_rewrite <- truthyJson_false_iff.
    unfold postLocacoesJson.
    destruct (truthyJson (cj_placaVeiculo c)) eqn:Hp;
      destruct (truthyJson (cj_clienteId c)) eqn:Hc; simpl;
      try (eexists _, _; split; [reflexivity|]; simpl; split;
           [split; [auto | reflexivity] | reflexivity]).
    destruct (soTextos c) as [b|].
    + destruct (gravarLocacao_responde agora b w) as (resp & w' & Hrun & Hn).
      exists resp, w'. split; [exact Hrun|]. split; [|contradiction].
      split; [contradiction | intros [?|?]; discriminate].
    + unfold tryCatch, bind, ret.
      destruct (comOutrosValores agora c w) as [[e|[]] w'];
        (eexists _, _; split; [reflexivity|]; simpl; split;
         [split; [discriminate | intros [?|?]; discriminate]
         | discriminate]).
  - intros placa cliente inicio fim v s Hp Hc Hv Hfresh.
    apply String.eqb_neq in Hp, Hc.
    unfold postLocacoesJson, soTextos, gravarLocacao. desdobra.
    rewrite Hp, Hc. simpl. rewrite Hv. simpl.
    rewrite Hfresh. simpl. reflexivity.
Qed.

(** C10. Rental creation does not read the flag [disponivel]: under every
    schedule of faults its answer is the same whether a vehicle is stored
    available or not. In particular, for a vehicle that is unavailable
    because an active rental references it, a creation with both required
    fields, a fresh identifier and the service answering every call answers
    success and stores a second active rental against the same plate. *)
Theorem locacao_ignora_disponibilidade (agora : N) (b : CorpoLocacao)
  (s : Store) (v : Veiculo) (id0 : string) (l0 : Locacao) :
  truthy (cl_placaVeiculo b) = true →
  truthy (cl_clienteId b) = true →
  veiculos s !! texto (cl_placaVeiculo b) = Some v →
  disponivel v = false →
  locacoes s !! id0 = Some l0 →
  status l0 = ativa →
  placaVeiculo l0 = texto (cl_placaVeiculo b) →
  locacoes s !! toString agora = None →
  (∀ (fs : list (option RestError)) (d : bool),
      (executar (PostLocacoes agora b)
         {| store :=
              {| veiculos := <[texto (cl_placaVeiculo b) := mergeDisponivel d v]>
                               (veiculos s);
                 clientes := clientes s; locacoes := locacoes s |};
            falhas := fs |}).1
      = (executar (PostLocacoes agora b) {| store := s; falhas := fs |}).1)
  ∧ ∃ s' : Store,
      executar (PostLocacoes agora b) (nominal s)
      = (inr (json (CSucesso true None)), nominal s')
      ∧ id0 ≠ toString agora
      ∧ locacoes s' !! id0 = Some l0
      ∧ locacoes s' !! toString agora = Some (entidade b (Some v))
      ∧ status (entidade b (Some v)) = ativa
      ∧ placaVeiculo (entidade b (Some v)) = placaVeiculo l0.
Proof.
  intros Hp Hc Hv Hd Hl0 Ha Hpl Hfresh.
  assert (Hne : id0 ≠ toString agora) by (intros ->; congruence).
  split.
  - intros fs d. desdobra. rewrite Hp, Hc. simpl.
    repeat first
      [ rewrite lookup_insert_eq | rewrite Hv | rewrite Hfresh
      | progress simpl
      | match goal with
        | |- context [match ?l with [] => _ | _ :: _ => _ end] =>
            destruct l as [|[?|] ?]
        end ];
      reflexivity.
  - eexists. split; [|split; [exact Hne|]].
    + desdobra. rewrite Hp, Hc. simpl. rewrite Hv. simpl.
      rewrite Hfresh. simpl. rewrite Hv. simpl. reflexivity.
    + simpl. rewrite lookup_insert_ne by congruence.
      rewrite lookup_insert_eq. auto.
Qed.

(** ** What every handler preserves, whatever the faults *)

Section Preserva.

Variable P : Store → Store → Prop.
Hypothesis P_refl : ∀ s, P s s.
Hypothesis P_trans : ∀ a b c, P a b → P b c → P a c.

Definition preserva {A} (m : M A) : Prop :=
  ∀ w, P (store w) (store (m w).2).

Lemma preserva_ret {A} (a : A) : preserva (ret a).
Proof. intros w. apply P_refl. Qed.

Lemma preserva_throw {A} (e : RestError) : preserva (@throw A e).
Proof. intros w. apply P_refl. Qed.

Lemma preserva_bind {A B} (m : M A) (k : A → M B) :
  preserva m → (∀ a, preserva (k a)) → preserva (bind m k).
Proof.
  intros Hm Hk w. unfold bind.
  specialize (Hm w). destruct (m w) as [[e|a] w1]; simpl in *.
  - exact Hm.
  - eapply P_trans; [exact Hm | apply Hk].
Qed.

Lemma preserva_tryCatch {A} (m : M A) (h : RestError → M A) :
  preserva m → (∀ e, preserva (h e)) → preserva (tryCatch m h).
Proof.
  intros Hm Hh w. unfold tryCatch.
  specialize (Hm w). destruct (m w) as [[e|a] w1]; simpl in *.
  - eapply P_trans; [exact Hm | apply Hh].
  - exact Hm.
Qed.

Lemma preserva_chamada : preserva chamada.
Proof.
  intros [s fs]. unfold chamada. simpl.
  destruct fs as [|[e|] fs]; simpl; apply P_refl.
Qed.

Lemma preserva_lerStore : preserva lerStore.
Proof. intros w. apply P_refl. Qed.

Lemma preserva_getEntity {E} (t : TableClient E) k :
  preserva (getEntity t k).
Proof.
  unfold getEntity.
  apply preserva_bind; [apply preserva_chamada | intros _].
  apply preserva_bind; [apply preserva_lerStore | intros s].
  destruct (ler t s !! k); [apply preserva_ret | apply preserva_throw].
Qed.

Lemma preserva_listEntities {E} (t : TableClient E) f :
  preserva (listEntities t f).
Proof.
  unfold listEntities.
  apply preserva_bind; [apply preserva_chamada | intros _].
  apply preserva_bind; [apply preserva_lerStore | intros s].
  apply preserva_ret.
Qed.

(** A write is preserved when the relation allows it from the store that
    was read; the read and the write are one call, nothing comes between. *)
Lemma preserva_escrita {E} (t : TableClient E) k
  (f : Store → option E → M unit) :
  (∀ w, P (store w) (store (f (store w) (ler t (store w) !! k) w).2)) →
  preserva (await _ <- chamada; await s <- lerStore; f s (ler t s !! k)).
Proof.
  intros Hf [s fs]. unfold bind, chamada, lerStore. simpl.
  destruct fs as [|[e|] fs]; simpl; try apply P_refl.
  - apply (Hf {| store := s; falhas := [] |}).
  - apply (Hf {| store := s; falhas := fs |}).
Qed.

Lemma preserva_createEntity {E} (t : TableClient E) k e :
  (∀ s, ler t s !! k = None → P s (gravar t (<[k := e]> (ler t s)) s)) →
  preserva (createEntity t k e).
Proof.
  intros H. unfold createEntity.
  apply (preserva_escrita t k
    (λ s o, match o with
            | Some _ => throw jaExiste
            | None => gravarStore (gravar t (<[k := e]> (ler t s)) s)
            end)).
  intros w. destruct (ler t (store w) !! k) eqn:Hk; simpl.
  - apply P_refl.
  - apply H, Hk.
Qed.

Lemma preserva_updateEntity {E} (t : TableClient E) k bag :
  (∀ s e, ler t s !! k = Some e →
     P s (gravar t (<[k := bag e]> (ler t s)) s)) →
  preserva (updateEntity t k bag).
Proof.
  intros H. unfold updateEntity.
  apply (preserva_escrita t k
    (λ s o, match o with
            | Some e => gravarStore (gravar t (<[k := bag e]> (ler t s)) s)
            | None => throw naoEncontrado
            end)).
  intros w. destruct (ler t (store w) !! k) eqn:Hk; simpl.
  - apply H, Hk.
  - apply P_refl.
Qed.

Lemma preserva_deleteEntity {E} (t : TableClient E) k :
  (∀ s e, ler t s !! k = Some e → P s (gravar t (delete k (ler t s)) s)) →
  preserva (deleteEntity t k).
Proof.
  intros H. unfold deleteEntity.
  apply (preserva_escrita t k
    (λ s o, match o with
            | Some _ => gravarStore (gravar t (delete k (ler t s)) s)
            | None => throw naoEncontrado
            end)).
  intros w. destruct (ler t (store w) !! k) eqn:Hk; simpl.
  - eapply H, Hk.
  - apply P_refl.
Qed.

(** The writes of the back end, table by table. *)
Record escritasPermitidas : Prop := {
  ep_veiculo_novo : ∀ s k (v : Veiculo), veiculos s !! k = None →
    P s (gravar tabelaVeiculos (<[k := v]> (veiculos s)) s);
  ep_veiculo_flag : ∀ s k (v : Veiculo) d, veiculos s !! k = Some v →
    P s (gravar tabelaVeiculos (<[k := mergeDisponivel d v]> (veiculos s)) s);
  ep_cliente_novo : ∀ s k (c : Cliente), clientes s !! k = None →
    P s (gravar tabelaClientes (<[k := c]> (clientes s)) s);
  ep_cliente_merge : ∀ s k (c : Cliente) n e t, clientes s !! k = Some c →
    P s (gravar tabelaClientes (<[k := mergeCliente n e t c]> (clientes s)) s);
  ep_cliente_delete : ∀ s k (c : Cliente), clientes s !! k = Some c →
    P s (gravar tabelaClientes (delete k (clientes s)) s);
  ep_locacao_nova : ∀ s k (l : Locacao), locacoes s !! k = None →
    placaVeiculo l ≠ "" → clienteId l ≠ "" → status l = ativa →
    P s (gravar tabelaLocacoes (<[k := l]> (locacoes s)) s);
  ep_locacao_cancelada : ∀ s k (l : Locacao), locacoes s !! k = Some l →
    P s (gravar tabelaLocacoes (<[k := mergeStatus cancelada l]> (locacoes s)) s)
}.

Ltac preserva_passo :=
  first
    [ apply preserva_ret | apply preserva_throw
    | apply preserva_getEntity | apply preserva_listEntities
    | apply preserva_chamada
    | apply preserva_createEntity; intros ? ?
    | apply preserva_updateEntity; intros ? ? ?
    | apply preserva_deleteEntity; intros ? ? ?
    | apply preserva_bind | apply preserva_tryCatch
    | match goal with
      | |- ∀ _, preserva _ => intros ?
      | |- preserva (match ?x with _ => _ end) => destruct x eqn:?
      end ].

Lemma preserva_executar (r : Requisicao) :
  escritasPermitidas → preserva (executar r).
Proof.
  intros [Hvn Hvf Hcn Hcm Hcd Hln Hlc].
  destruct r as [b|agora b|id b|id|qm qd|agora b|id]; simpl.
  - unfold postVeiculos, uploadData. repeat preserva_passo. eauto.
  - unfold postClientes. repeat preserva_passo. eauto.
  - unfold putClientes. repeat preserva_passo. eauto.
  - unfold deleteClientes. repeat preserva_passo. eauto.
  - unfold getVeiculosDisponiveis. repeat preserva_passo.
  - unfold postLocacoes.
    destruct (truthy (cl_placaVeiculo b)) eqn:Hp;
      destruct (truthy (cl_clienteId b)) eqn:Hc; simpl;
      repeat preserva_passo; eauto.
    apply Hln; simpl; auto; apply truthy_texto; assumption.
  - unfold postCancelarLocacao. repeat preserva_passo; eauto.
Qed.

Lemma preserva_apos (r : Requisicao) fs s :
  escritasPermitidas → P s (apos r fs s).
Proof.
  intros H. apply (preserva_executar r H {| store := s; falhas := fs |}).
Qed.

Lemma preserva_executarTodas rs s :
  escritasPermitidas → P s (executarTodas rs s).
Proof.
  intros H. unfold executarTodas. revert s.
  induction rs as [|[r fs] rs IH]; intros s; simpl.
  - apply P_refl.
  - eapply P_trans; [apply (preserva_apos r fs s H) | apply IH].
Qed.

End Preserva.

(** ** Rentals only advance *)

(** Every rental of [s] is still stored in [s'], as it was or cancelled. *)
Definition locacoesAvancam (s s' : Store) : Prop :=
  ∀ id l, locacoes s !! id = Some l →
    ∃ l', locacoes s' !! id = Some l'
          ∧ (l' = l ∨ l' = mergeStatus cancelada l).

Lemma locacoesAvancam_refl s : locacoesAvancam s s.
Proof. intros id l H. exists l. auto. Qed.

Lemma locacoesAvancam_trans a b c :
  locacoesAvancam a b → locacoesAvancam b c → locacoesAvancam a c.
Proof.
  intros Hab Hbc id l H.
  destruct (Hab id l H) as (l1 & H1 & E1).
  destruct (Hbc id l1 H1) as (l2 & H2 & E2).
  exists l2. split; [exact H2|].
  destruct E1 as [->| ->], E2 as [->| ->]; auto.
Qed.

Lemma locacoesAvancam_escritas : escritasPermitidas locacoesAvancam.
Proof.
  split; simpl; intros s k; intros;
    try (intros id l' Hl'; exists l'; simpl; auto; fail).
  - intros id l' Hl'. exists l'. simpl.
    rewrite lookup_insert_ne by congruence. auto.
  - intros id l' Hl'. simpl.
    destruct (decide (k = id)) as [->|Hne].
    + rewrite lookup_insert_eq. eexists. split; [reflexivity|].
      right. congruence.
    + rewrite lookup_insert_ne by exact Hne. exists l'. auto.
Qed.

(** C8. Across every sequence of requests, under every schedule of faults,
    a stored rental stays stored and is the rental it was, or that rental
    cancelled by a merge of its status: its status is unchanged or has gone
    from [ativa] to [cancelada], and a cancelled rental stays cancelled. *)
Theorem status_so_avanca
  (rs : list (Requisicao * list (option RestError))) (s : Store)
  (id : string) (l : Locacao) :
  locacoes s !! id = Some l →
  ∃ l' : Locacao,
    locacoes (executarTodas rs s) !! id = Some l'
    ∧ (l' = l ∨ (status l = ativa ∧ l' = mergeStatus cancelada l))
    ∧ (status l = cancelada → status l' = cancelada).
Proof.
  intros H.
  destruct (preserva_executarTodas locacoesAvancam locacoesAvancam_refl
              locacoesAvancam_trans rs s locacoesAvancam_escritas id l H)
    as (l' & Hl' & E).
  exists l'. split; [exact Hl'|].
  destruct E as [->| ->].
  - auto.
  - destruct l as [? ? ? ? ? ? ? st]; destruct st; simpl; auto.
Qed.

(** ** Vehicles keep their attributes *)

(** Every vehicle of [s] is still stored in [s'], as it was or with its flag
    overwritten by [d]. *)
Definition soMudaDisponivel (d : bool) (s s' : Store) : Prop :=
  ∀ p v, veiculos s !! p = Some v →
    ∃ v', veiculos s' !! p = Some v'
          ∧ (v' = v ∨ v' = mergeDisponivel d v).

Lemma soMudaDisponivel_refl d s : soMudaDisponivel d s s.
Proof. intros p v H. exists v. auto. Qed.

Lemma soMudaDisponivel_trans d a b c :
  soMudaDisponivel d a b → soMudaDisponivel d b c → soMudaDisponivel d a c.
Proof.
  intros Hab Hbc p v H.
  destruct (Hab p v H) as (v1 & H1 & E1).
  destruct (Hbc p v1 H1) as (v2 & H2 & E2).
  exists v2. split; [exact H2|].
  destruct E1 as [->| ->], E2 as [->| ->]; auto.
Qed.

(** The same steps as [preserva_executar], for the two handlers that write
    the flag, each with the value it writes. *)
Lemma soMudaDisponivel_flag d s k v :
  veiculos s !! k = Some v →
  soMudaDisponivel d s
    (gravar tabelaVeiculos (<[k := mergeDisponivel d v]> (veiculos s)) s).
Proof.
  intros Hk p v0 Hp. simpl.
  destruct (decide (k = p)) as [->|Hne].
  - rewrite lookup_insert_eq. eexists. split; [reflexivity|].
    right. congruence.
  - rewrite lookup_insert_ne by exact Hne. exists v0. auto.
Qed.

Lemma soMudaDisponivel_locacoes d s t :
  soMudaDisponivel d s (gravar tabelaLocacoes t s).
Proof. intros p v H. exists v. auto. Qed.

Ltac flag_passo d :=
  first
    [ apply preserva_ret | apply preserva_throw
    | apply preserva_getEntity | apply preserva_listEntities
    | apply preserva_createEntity; intros ? ?
    | apply preserva_updateEntity; intros ? ? ?
    | apply preserva_bind | apply preserva_tryCatch
    | apply soMudaDisponivel_refl | apply soMudaDisponivel_trans
    | apply soMudaDisponivel_locacoes
    | apply soMudaDisponivel_flag; assumption
    | match goal with
      | |- ∀ _, preserva _ _ => intros ?
      | |- preserva _ (match ?x with _ => _ end) => destruct x eqn:?
      end ].

Lemma postLocacoes_soMudaDisponivel agora b :
  preserva (soMudaDisponivel false) (postLocacoes agora b).
Proof. unfold postLocacoes. repeat flag_passo false. Qed.

Lemma postCancelarLocacao_soMudaDisponivel id :
  preserva (soMudaDisponivel true) (postCancelarLocacao id).
Proof. unfold postCancelarLocacao. repeat flag_passo true. Qed.

(** C9. Under every schedule of faults, a stored vehicle is still stored
    after a rental creation and after a cancellation, with the brand, model,
    year, daily rate and image URL it had: it is the vehicle it was, or that
    vehicle with only its flag overwritten, by [false] on creation and by
    [true] on cancellation. *)
Theorem veiculo_so_muda_disponivel (fs : list (option RestError))
  (s : Store) (p : string) (v : Veiculo) :
  veiculos s !! p = Some v →
  (∀ agora b, ∃ v' : Veiculo,
      veiculos (apos (PostLocacoes agora b) fs s) !! p = Some v'
      ∧ (v' = v ∨ v' = mergeDisponivel false v)
      ∧ mesmosAtributos v v')
  ∧ (∀ id, ∃ v' : Veiculo,
      veiculos (apos (PostCancelarLocacao id) fs s) !! p = Some v'
      ∧ (v' = v ∨ v' = mergeDisponivel true v)
      ∧ mesmosAtributos v v').
Proof.
  intros H. split.
  - intros agora b.
    destruct (postLocacoes_soMudaDisponivel agora b
                {| store := s; falhas := fs |} p v H) as (v' & Hv' & E).
    exists v'. split; [exact Hv'|]. split; [exact E|].
    destruct E as [->| ->]; repeat split.
  - intros id.
    destruct (postCancelarLocacao_soMudaDisponivel id
                {| store := s; falhas := fs |} p v H) as (v' & Hv' & E).
    exists v'. split; [exact Hv'|]. split; [exact E|].
    destruct E as [->| ->]; repeat split.
Qed.

(** ** Reachable states are well formed *)

Lemma bemFormado_escritas :
  escritasPermitidas (λ s s', bemFormado s → bemFormado s').
Proof.
  split; simpl; intros s k; intros; try assumption.
  - intros id l' Hl'. simpl in Hl'.
    destruct (decide (k = id)) as [->|Hne].
    + rewrite lookup_insert_eq in Hl'. simplify_eq. auto.
    + rewrite lookup_insert_ne in Hl' by exact Hne. eauto.
  - intros id l' Hl'. simpl in Hl'.
    destruct (decide (k = id)) as [->|Hne].
    + rewrite lookup_insert_eq in Hl'. simplify_eq. simpl. eauto.
    + rewrite lookup_insert_ne in Hl' by exact Hne. eauto.
Qed.

Lemma alcancavel_bemFormado s : alcancavel s → bemFormado s.
Proof.
  induction 1 as [|s r fs _ IH].
  - intros id l H. simpl in H. rewrite lookup_empty in H. discriminate.
  - revert IH.
    apply (preserva_apos (λ s s', bemFormado s → bemFormado s')); auto.
    apply bemFormado_escritas.
Qed.

Lemma eqb_vazio_false (x : string) : x ≠ "" → String.eqb x "" = false.
Proof. intros H. destruct (String.eqb_spec x ""); congruence. Qed.

(** ** Cancellation *)

(** The store a cancellation of the stored rental [l] leaves when the
    service answers every call. *)
Lemma cancelar_nominal (s : Store) (id : string) :
  executar (PostCancelarLocacao id) (nominal s)
  = match locacoes s !! id with
    | Some l =>
        (inr (json (CSucesso true None)),
         nominal
           {| veiculos :=
                match
                  (if String.eqb (placaVeiculo l) "" then None
                   else veiculos s !! placaVeiculo l)
                with
                | Some v =>
                    <[placaVeiculo l := mergeDisponivel true v]> (veiculos s)
                | None => veiculos s
                end;
              clientes := clientes s;
              locacoes := <[id := mergeStatus cancelada l]> (locacoes s) |})
    | None =>
        (inr (statusJson 500 (CErro (message naoEncontrado))), nominal s)
    end.
Proof.
  desdobra. destruct (locacoes s !! id) as [l|] eqn:Hl; simpl.
  - rewrite Hl. simpl.
    destruct (String.eqb (placaVeiculo l) ""); simpl; [reflexivity|].
    destruct (veiculos s !! placaVeiculo l) as [v|] eqn:Hv; simpl.
    + rewrite Hv. reflexivity.
    + reflexivity.
  - reflexivity.
Qed.

(** C2. In a reachable state, with the service answering every call, the
    cancellation of a stored rental answers success, stores that rental with
    status [cancelada] and touches no other rental and no client; the vehicle
    under the plate of the rental, when there is one, is stored with
    [disponivel] true and is otherwise as it was, and when there is none the
    vehicles are left as they are and the answer is success all the same. *)
Theorem cancelamento_efeitos (s : Store) (id : string) (l : Locacao) :
  alcancavel s →
  locacoes s !! id = Some l →
  ∃ s' : Store,
    executar (PostCancelarLocacao id) (nominal s)
    = (inr (json (CSucesso true None)), nominal s')
    ∧ locacoes s' = <[id := mergeStatus cancelada l]> (locacoes s)
    ∧ status (mergeStatus cancelada l) = cancelada
    ∧ clientes s' = clientes s
    ∧ match veiculos s !! placaVeiculo l with
      | Some v =>
          veiculos s' = <[placaVeiculo l := mergeDisponivel true v]> (veiculos s)
          ∧ disponivel (mergeDisponivel true v) = true
      | None => veiculos s' = veiculos s
      end.
Proof.
  intros Halc Hl.
  destruct (alcancavel_bemFormado s Halc id l Hl) as [Hplaca _].
  rewrite cancelar_nominal, Hl.
  eexists. split; [reflexivity|]. simpl.
  rewrite (eqb_vazio_false _ Hplaca).
  destruct (veiculos s !! placaVeiculo l); auto.
Qed.

(** C6. Cancelling is idempotent. With the service answering every call,
    cancelling a second time leaves the store that the first cancellation
    left and gets the same answer; and the cancellation of a rental that is
    already cancelled answers success, leaves every rental (so the status
    [cancelada]) and every client as stored, and leaves the vehicles as
    stored but for the vehicle under the plate of the rental, when there is
    one, which is stored with [disponivel] true. *)
Theorem cancelamento_idempotente (s : Store) (id : string) :
  apos (PostCancelarLocacao id) [] (apos (PostCancelarLocacao id) [] s)
  = apos (PostCancelarLocacao id) [] s
  ∧ (executar (PostCancelarLocacao id)
       (nominal (apos (PostCancelarLocacao id) [] s))).1
    = (executar (PostCancelarLocacao id) (nominal s)).1
  ∧ ∀ l : Locacao,
      locacoes s !! id = Some l →
      status l = cancelada →
      ∃ s' : Store,
        executar (PostCancelarLocacao id) (nominal s)
        = (inr (json (CSucesso true None)), nominal s')
        ∧ locacoes s' = locacoes s
        ∧ clientes s' = clientes s
        ∧ (veiculos s' = veiculos s
           ∨ ∃ v, veiculos s !! placaVeiculo l = Some v
                  ∧ veiculos s'
                    = <[placaVeiculo l := mergeDisponivel true v]> (veiculos s)).
Proof.
  assert (Hduas :
    executar (PostCancelarLocacao id)
      (nominal (apos (PostCancelarLocacao id) [] s))
    = ((executar (PostCancelarLocacao id) (nominal s)).1,
       nominal (apos (PostCancelarLocacao id) [] s))).
  { unfold apos. fold (nominal s). rewrite (cancelar_nominal s).
    destruct (locacoes s !! id) as [l|] eqn:Hl; cbn [fst snd store nominal].
    - rewrite cancelar_nominal. cbn [locacoes].
      rewrite lookup_insert_eq. cbn [fst snd]. f_equal. f_equal.
      cbn [mergeStatus placaVeiculo veiculos clientes status].
      rewrite insert_insert_eq. f_equal.
      destruct (String.eqb (placaVeiculo l) ""); [reflexivity|].
      destruct (veiculos s !! placaVeiculo l) as [v|] eqn:Hv.
      + rewrite lookup_insert_eq, insert_insert_eq. reflexivity.
      + rewrite Hv. reflexivity.
    - rewrite cancelar_nominal, Hl. reflexivity. }
  split; [|split].
  - unfold apos at 1. fold (nominal (apos (PostCancelarLocacao id) [] s)).
    rewrite Hduas. reflexivity.
  - rewrite Hduas. reflexivity.
  - intros l Hl Hst.
    assert (Hid : mergeStatus cancelada l = l).
    { destruct l; simpl in *; subst; reflexivity. }
    rewrite cancelar_nominal, Hl, Hid, (insert_id _ _ _ Hl).
    eexists. split; [reflexivity|]. simpl.
    split; [reflexivity|]. split; [reflexivity|].
    destruct (String.eqb (placaVeiculo l) ""); [auto|].
    destruct (veiculos s !! placaVeiculo l) as [v|]; eauto.
Qed.

(** ** Listing the available vehicles *)

Lemma estritamenteIgual_Some (o : option string) (x : string) :
  estritamenteIgual o (Some x) = true ↔ o = Some x.
Proof.
  destruct o as [y|]; simpl.
  - destruct (String.eqb_spec y x); split; congruence.
  - split; discriminate.
Qed.

Lemma filtro_passa (q o : option string) :
  negb (truthy q) || estritamenteIgual o q = true
  ↔ (∀ x, q = Some x → x ≠ "" → o = Some x).
Proof.
  destruct q as [x|]; simpl.
  - destruct (String.eqb_spec x "") as [->|Hx]; simpl.
    + split; [intros _ y [= <-] Hy; congruence | reflexivity].
    + rewrite estritamenteIgual_Some. split.
      * intros -> y [= <-] _. reflexivity.
      * intros H. apply H; auto.
  - split; [intros _ x; discriminate | reflexivity].
Qed.

(** C7 (as amended). With the service answering the call, the listing
    answers, without repetition, exactly the stored vehicles whose flag
    [disponivel] is true, whose brand is the brand asked for when one is
    given and is not the empty string, and whose model is the model asked
    for when one is given and is not the empty string; a filter that is
    absent or empty lets every available vehicle through. *)
Theorem disponiveis_filtrados (s : Store) (q_marca q_modelo : option string) :
  ∃ vs : list (string * Veiculo),
    executar (GetVeiculosDisponiveis q_marca q_modelo) (nominal s)
    = (inr (json (CVeiculos vs)), nominal s)
    ∧ NoDup vs
    ∧ ∀ (placa : string) (v : Veiculo),
        (placa, v) ∈ vs ↔
        veiculos s !! placa = Some v
        ∧ disponivel v = true
        ∧ (∀ x, q_marca = Some x → x ≠ "" → marca v = Some x)
        ∧ (∀ x, q_modelo = Some x → x ≠ "" → modelo v = Some x).
Proof.
  desdobra. eexists. split; [reflexivity|]. split.
  - apply NoDup_filter, NoDup_filter, NoDup_map_to_list.
  - intros placa v.
    rewrite !list_elem_of_filter, elem_of_map_to_list. simpl.
    unfold passaFiltro. rewrite andb_true_iff, !filtro_passa.
    tauto.
Qed.

(** ** Deleting a client *)

Lemma filter_tudo {A} (l : list A) : filter (λ _ : A, true = true) l = l.
Proof.
  induction l as [|x l IH]; [reflexivity|].
  rewrite filter_cons_True by reflexivity. by rewrite IH.
Qed.

Lemma temLocacoesAtivas_true (id : string) (iter : list (string * Locacao)) :
  (temLocacoesAtivas id iter).1 = true
  ↔ ∃ k l, (k, l) ∈ iter ∧ clienteId l = id ∧ status l = ativa.
Proof.
  induction iter as [|[k l] iter IH]; simpl.
  - split; [discriminate|]. intros (k & l & H & _).
    by apply not_elem_of_nil in H.
  - destruct (String.eqb_spec (clienteId l) id) as [Hc|Hc]; simpl.
    + destruct (status l) eqn:Hs; simpl.
      * split; [|reflexivity]. intros _. exists k, l.
        split; [apply list_elem_of_here | auto].
      * rewrite IH. split.
        -- intros (k' & l' & H & H'). exists k', l'.
           split; [by apply list_elem_of_further | exact H'].
        -- intros (k' & l' & H & Hc' & Hs').
           apply elem_of_cons in H as [[= -> ->]|H]; [congruence|].
           exists k', l'. auto.
    + rewrite IH. split.
      * intros (k' & l' & H & H'). exists k', l'.
        split; [by apply list_elem_of_further | exact H'].
      * intros (k' & l' & H & Hc' & Hs').
        apply elem_of_cons in H as [[= -> ->]|H]; [congruence|].
        exists k', l'. auto.
Qed.

Lemma temLocacoesAtivas_break (id : string)
  (antes : list (string * Locacao)) k l (depois : list (string * Locacao)) :
  (∀ k' l', (k', l') ∈ antes → ¬ (clienteId l' = id ∧ status l' = ativa)) →
  clienteId l = id → status l = ativa →
  temLocacoesAtivas id (antes ++ (k, l) :: depois) = (true, S (length antes)).
Proof.
  intros Hantes Hc Hs.
  induction antes as [|[k' l'] antes IH]; simpl.
  - rewrite Hc, Hs, String.eqb_refl. reflexivity.
  - assert (Hn : String.eqb (clienteId l') id
                 && status_eqb (status l') ativa = false).
    { destruct (String.eqb_spec (clienteId l') id) as [E|E]; [|reflexivity].
      destruct (status l') eqn:Hs'; [|reflexivity].
      exfalso. apply (Hantes k' l'); [apply list_elem_of_here | auto]. }
    rewrite Hn, IH; [reflexivity|].
    intros k2 l2 H. apply (Hantes k2). by apply list_elem_of_further.
Qed.

(** C3. With the service answering every call: the deletion of a client
    that is not stored answers 404 and writes nothing; the deletion of a
    stored client with an active rental answers 400, which is not 404, and
    writes nothing, so the client is stored as it was; the deletion of a
    stored client with no active rental answers success and removes the
    client, after which [getEntity] on it throws the 404 error and a second
    deletion answers 404. The scan of the rentals stops at the first active
    rental of the client: it looks at the rentals before it and at that one,
    whatever comes after. *)
Theorem exclusao_de_cliente (s : Store) (id : string) :
  (clientes s !! id = None →
     executar (DeleteClientes id) (nominal s)
     = (inr (statusJson 404
               (CSucesso false (Some "Cliente não encontrado"))),
        nominal s))
  ∧ (∀ c : Cliente,
       clientes s !! id = Some c →
       (∃ k l, locacoes s !! k = Some l
               ∧ clienteId l = id ∧ status l = ativa) →
       executar (DeleteClientes id) (nominal s)
       = (inr (statusJson 400
                 (CSucesso false
                    (Some "Não é possível excluir cliente com locações ativas"))),
          nominal s)
       ∧ 400 ≠ 404)
  ∧ (∀ c : Cliente,
       clientes s !! id = Some c →
       (∀ k l, locacoes s !! k = Some l →
               ¬ (clienteId l = id ∧ status l = ativa)) →
       ∃ s' : Store,
         executar (DeleteClientes id) (nominal s)
         = (inr (json (CSucesso true (Some "Cliente excluído com sucesso"))),
            nominal s')
         ∧ clientes s' = delete id (clientes s)
         ∧ veiculos s' = veiculos s
         ∧ locacoes s' = locacoes s
         ∧ getEntity tabelaClientes id (nominal s')
           = (inl naoEncontrado, nominal s')
         ∧ statusCode naoEncontrado = 404
         ∧ executar (DeleteClientes id) (nominal s')
           = (inr (statusJson 404
                     (CSucesso false (Some "Cliente não encontrado"))),
              nominal s'))
  ∧ (∀ (antes : list (string * Locacao)) k l
       (depois : list (string * Locacao)),
       (∀ k' l', (k', l') ∈ antes →
                 ¬ (clienteId l' = id ∧ status l' = ativa)) →
       clienteId l = id → status l = ativa →
       temLocacoesAtivas id (antes ++ (k, l) :: depois)
       = (true, S (length antes))).
Proof.
  split; [|split; [|split]].
  - intros Hc. desdobra. rewrite Hc. reflexivity.
  - intros c Hc (k & l & Hl & Hid & Hs). split; [|discriminate].
    desdobra. rewrite Hc. simpl. rewrite filter_tudo.
    assert (H : (temLocacoesAtivas id (map_to_list (locacoes s))).1 = true).
    { apply temLocacoesAtivas_true. exists k, l.
      split; [by apply elem_of_map_to_list | auto]. }
    rewrite H. reflexivity.
  - intros c Hc Hnone.
    assert (H : (temLocacoesAtivas id (map_to_list (locacoes s))).1 = false).
    { apply not_true_is_false. intros H.
      apply temLocacoesAtivas_true in H as (k & l & Hl & H).
      apply elem_of_map_to_list in Hl. exact (Hnone k l Hl H). }
    eexists. split.
    + desdobra. rewrite Hc. simpl. rewrite filter_tudo, H. simpl.
      rewrite Hc. reflexivity.
    + cbn [clientes veiculos locacoes]. repeat split.
      * desdobra. rewrite lookup_delete_eq. reflexivity.
      * desdobra. rewrite lookup_delete_eq. reflexivity.
  - intros antes k l depois. apply temLocacoesAtivas_break.
Qed.

(** ** The consistency of the flag under the discipline of the front end *)

Lemma veiculos_nominal (b : CorpoVeiculo) (s : Store) :
  ∃ v : Veiculo,
    disponivel v = ehVerdadeiro (cv_disponivel b)
    ∧ apos (PostVeiculos b) [] s
      = match veiculos s !! cv_placa b with
        | Some _ => s
        | None => {| veiculos := <[cv_placa b := v]> (veiculos s);
                     clientes := clientes s; locacoes := locacoes s |}
        end.
Proof.
  desdobra. destruct (cv_arquivo b); simpl;
    (eexists; split;
     [|destruct (veiculos s !! cv_placa b); simpl; reflexivity]);
    reflexivity.
Qed.

Lemma locacao_nominal (agora : N) (b : CorpoLocacao) (s : Store) :
  apos (PostLocacoes agora b) [] s
  = if negb (truthy (cl_placaVeiculo b)) || negb (truthy (cl_clienteId b))
    then s
    else
      match locacoes s !! toString agora with
      | Some _ => s
      | None =>
          {| veiculos :=
               match veiculos s !! texto (cl_placaVeiculo b) with
               | Some v =>
                   <[texto (cl_placaVeiculo b) := mergeDisponivel false v]>
                     (veiculos s)
               | None => veiculos s
               end;
             clientes := clientes s;
             locacoes :=
               <[toString agora :=
                   entidade b (veiculos s !! texto (cl_placaVeiculo b))]>
                 (locacoes s) |}
      end.
Proof.
  desdobra.
  destruct (negb (truthy (cl_placaVeiculo b))
            || negb (truthy (cl_clienteId b))); simpl; [reflexivity|].
  destruct (veiculos s !! texto (cl_placaVeiculo b)) as [v|] eqn:Hv; simpl;
    destruct (locacoes s !! toString agora); simpl;
    rewrite ?Hv; reflexivity.
Qed.

Lemma cancelar_apos (s : Store) (id : string) :
  apos (PostCancelarLocacao id) [] s
  = (executar (PostCancelarLocacao id) (nominal s)).2.(store).
Proof. reflexivity. Qed.

(** The requests on clients and the listing write neither a vehicle nor a
    rental. *)
Definition naoToca (s s' : Store) : Prop :=
  veiculos s' = veiculos s ∧ locacoes s' = locacoes s.

Lemma naoToca_refl s : naoToca s s.
Proof. split; reflexivity. Qed.

Lemma naoToca_trans a b c : naoToca a b → naoToca b c → naoToca a c.
Proof. intros [? ?] [? ?]. split; congruence. Qed.

Lemma naoToca_clientes s t : naoToca s (gravar tabelaClientes t s).
Proof. split; reflexivity. Qed.

Ltac naoToca_passo :=
  first
    [ apply preserva_ret | apply preserva_throw
    | apply preserva_getEntity | apply preserva_listEntities
    | apply preserva_createEntity
    | apply preserva_updateEntity
    | apply preserva_deleteEntity
    | apply preserva_bind | apply preserva_tryCatch
    | apply naoToca_refl | apply naoToca_trans | apply naoToca_clientes
    | match goal with
      | |- preserva _ (match ?x with _ => _ end) => destruct x eqn:?
      | |- ∀ _, _ => intros ?
      end ].

Lemma clientes_naoToca (r : Requisicao) fs s :
  match r with
  | PostClientes _ _ | PutClientes _ _ | DeleteClientes _
  | GetVeiculosDisponiveis _ _ => naoToca s (apos r fs s)
  | _ => True
  end.
Proof.
  destruct r; try exact I;
    apply (λ m (H : preserva naoToca m), H {| store := s; falhas := fs |});
    simpl.
  - unfold postClientes. repeat naoToca_passo.
  - unfold putClientes. repeat naoToca_passo.
  - unfold deleteClientes. repeat naoToca_passo.
  - unfold getVeiculosDisponiveis. repeat naoToca_passo.
Qed.

(** What the induction carries: the consistency of the flag, and with it
    that an active rental references a stored vehicle and that no plate has
    two active rentals. *)
Definition invFlag (s : Store) : Prop :=
  consistente s
  ∧ (∀ id l, locacoes s !! id = Some l → status l = ativa →
       is_Some (veiculos s !! placaVeiculo l))
  ∧ (∀ id1 id2 l1 l2,
       locacoes s !! id1 = Some l1 → locacoes s !! id2 = Some l2 →
       status l1 = ativa → status l2 = ativa →
       placaVeiculo l1 = placaVeiculo l2 → id1 = id2)
  ∧ bemFormado s.

Lemma invFlag_vazio : invFlag vazio.
Proof.
  repeat split; simpl; intros *; rewrite ?lookup_empty; try discriminate.
Qed.

Lemma invFlag_naoToca s s' : naoToca s s' → invFlag s → invFlag s'.
Proof.
  intros [Hv Hl]. unfold invFlag, consistente, bemFormado.
  rewrite Hv, Hl. auto.
Qed.

Lemma invFlag_veiculo s p v :
  veiculos s !! p = None → disponivel v = true → invFlag s →
  invFlag {| veiculos := <[p := v]> (veiculos s);
             clientes := clientes s; locacoes := locacoes s |}.
Proof.
  intros Hp Hd (I1 & I2 & I3 & I4).
  split; [|split; [|split]]; simpl; try assumption.
  - intros p' v' Hv'. simpl in *.
    destruct (decide (p = p')) as [<-|Hne].
    + rewrite lookup_insert_eq in Hv'. simplify_eq. split.
      * congruence.
      * intros (id & l & Hl & Hpl & Hs).
        destruct (I2 id l Hl Hs) as [v0 Hv0]. congruence.
    + rewrite lookup_insert_ne in Hv' by exact Hne. apply I1, Hv'.
  - intros id l Hl Hs. simpl.
    destruct (decide (p = placaVeiculo l)) as [<-|Hne].
    + rewrite lookup_insert_eq. eauto.
    + rewrite lookup_insert_ne by exact Hne. eauto.
Qed.

Lemma invFlag_locacao s id e v :
  locacoes s !! id = None →
  veiculos s !! placaVeiculo e = Some v → disponivel v = true →
  placaVeiculo e ≠ "" → clienteId e ≠ "" → status e = ativa →
  invFlag s →
  invFlag {| veiculos := <[placaVeiculo e := mergeDisponivel false v]>
                           (veiculos s);
             clientes := clientes s;
             locacoes := <[id := e]> (locacoes s) |}.
Proof.
  intros Hid Hv Hd Hpe Hce Hse (I1 & I2 & I3 & I4).
  assert (Hlivre : ∀ id' l', locacoes s !! id' = Some l' →
            status l' = ativa → placaVeiculo l' ≠ placaVeiculo e).
  { intros id' l' Hl' Hs' Hp'.
    assert (disponivel v = false); [|congruence].
    apply (I1 _ _ Hv). exists id', l'. auto. }
  split; [|split; [|split]]; simpl.
  - intros p' v' Hv'. simpl in *.
    destruct (decide (placaVeiculo e = p')) as [<-|Hne].
    + rewrite lookup_insert_eq in Hv'. simplify_eq. simpl. split; [|auto].
      intros _. exists id, e. rewrite lookup_insert_eq. auto.
    + rewrite lookup_insert_ne in Hv' by exact Hne.
      rewrite (I1 _ _ Hv'). split.
      * intros (id' & l' & Hl' & H').
        exists id', l'. split; [|exact H'].
        rewrite lookup_insert_ne; [exact Hl' | congruence].
      * intros (id' & l' & Hl' & Hp' & Hs').
        destruct (decide (id = id')) as [<-|Hn].
        -- rewrite lookup_insert_eq in Hl'. simplify_eq.
        -- rewrite lookup_insert_ne in Hl' by exact Hn. eauto.
  - intros id' l' Hl' Hs'.
    destruct (decide (id = id')) as [<-|Hn].
    + rewrite lookup_insert_eq in Hl'. simplify_eq.
      rewrite lookup_insert_eq. eauto.
    + rewrite lookup_insert_ne in Hl' by exact Hn.
      destruct (decide (placaVeiculo e = placaVeiculo l')) as [E|Hne].
      * rewrite E, lookup_insert_eq. eauto.
      * rewrite lookup_insert_ne by exact Hne. eauto.
  - intros id1 id2 l1 l2 H1 H2 Hs1 Hs2 Hp.
    destruct (decide (id = id1)) as [<-|Hn1];
      destruct (decide (id = id2)) as [<-|Hn2]; try reflexivity.
    + rewrite lookup_insert_eq in H1. rewrite lookup_insert_ne in H2 by done.
      simplify_eq. exfalso. eapply Hlivre; eauto.
    + rewrite lookup_insert_eq in H2. rewrite lookup_insert_ne in H1 by done.
      simplify_eq. exfalso. eapply Hlivre; eauto.
    + rewrite lookup_insert_ne in H1 by done.
      rewrite lookup_insert_ne in H2 by done. eauto.
  - intros id' l' Hl'. simpl in Hl'.
    destruct (decide (id = id')) as [<-|Hn].
    + rewrite lookup_insert_eq in Hl'. simplify_eq. auto.
    + rewrite lookup_insert_ne in Hl' by exact Hn. eauto.
Qed.

Lemma invFlag_cancelar s id l v :
  locacoes s !! id = Some l → status l = ativa →
  veiculos s !! placaVeiculo l = Some v →
  invFlag s →
  invFlag {| veiculos := <[placaVeiculo l := mergeDisponivel true v]>
                           (veiculos s);
             clientes := clientes s;
             locacoes := <[id := mergeStatus cancelada l]> (locacoes s) |}.
Proof.
  intros Hl Hs Hv (I1 & I2 & I3 & I4).
  assert (Hativas : ∀ id' l',
            <[id := mergeStatus cancelada l]> (locacoes s) !! id' = Some l' →
            status l' = ativa →
            id ≠ id' ∧ locacoes s !! id' = Some l').
  { intros id' l' Hl' Hs'.
    destruct (decide (id = id')) as [<-|Hn].
    - rewrite lookup_insert_eq in Hl'. simplify_eq.
    - rewrite lookup_insert_ne in Hl' by exact Hn. auto. }
  split; [|split; [|split]]; simpl.
  - intros p' v' Hv'. simpl in *.
    destruct (decide (placaVeiculo l = p')) as [<-|Hne].
    + rewrite lookup_insert_eq in Hv'. simplify_eq. simpl.
      split; [discriminate|].
      intros (id' & l' & Hl' & Hp' & Hs').
      destruct (Hativas id' l' Hl' Hs') as [Hn Hold].
      exfalso. apply Hn. eapply I3; eauto.
    + rewrite lookup_insert_ne in Hv' by exact Hne.
      rewrite (I1 _ _ Hv'). split.
      * intros (id' & l' & Hl' & Hp' & Hs').
        exists id', l'. split; [|auto].
        rewrite lookup_insert_ne; [exact Hl' | congruence].
      * intros (id' & l' & Hl' & Hp' & Hs').
        destruct (Hativas id' l' Hl' Hs') as [Hn Hold]. eauto.
  - intros id' l' Hl' Hs'.
    destruct (Hativas id' l' Hl' Hs') as [Hn Hold].
    destruct (decide (placaVeiculo l = placaVeiculo l')) as [E|Hne].
    + rewrite E, lookup_insert_eq. eauto.
    + rewrite lookup_insert_ne by exact Hne. eauto.
  - intros id1 id2 l1 l2 H1 H2 Hs1 Hs2 Hp.
    destruct (Hativas id1 l1 H1 Hs1) as [_ Ho1].
    destruct (Hativas id2 l2 H2 Hs2) as [_ Ho2]. eauto.
  - intros id' l' Hl'. simpl in Hl'.
    destruct (decide (id = id')) as [<-|Hn].
    + rewrite lookup_insert_eq in Hl'. simplify_eq. simpl. eauto.
    + rewrite lookup_insert_ne in Hl' by exact Hn. eauto.
Qed.

Lemma invFlag_passo s r :
  invFlag s → disciplinada s r → invFlag (apos r [] s).
Proof.
  intros Hinv Hd.
  destruct r as [b|agora b|id b|id|qm qd|agora b|id].
  - destruct (veiculos_nominal b s) as (v & Hv & ->).
    destruct (veiculos s !! cv_placa b) eqn:Hp; [exact Hinv|].
    apply invFlag_veiculo; auto. simpl in Hd. congruence.
  - exact (invFlag_naoToca _ _ (clientes_naoToca (PostClientes agora b) [] s) Hinv).
  - exact (invFlag_naoToca _ _ (clientes_naoToca (PutClientes id b) [] s) Hinv).
  - exact (invFlag_naoToca _ _ (clientes_naoToca (DeleteClientes id) [] s) Hinv).
  - exact (invFlag_naoToca _ _
             (clientes_naoToca (GetVeiculosDisponiveis qm qd) [] s) Hinv).
  - rewrite locacao_nominal.
    destruct (truthy (cl_placaVeiculo b)) eqn:Hp; [|exact Hinv].
    destruct (truthy (cl_clienteId b)) eqn:Hc; [|exact Hinv].
    simpl.
    destruct (locacoes s !! toString agora) eqn:Hid; [exact Hinv|].
    destruct Hd as (v & Hv & Hdisp). rewrite Hv.
    apply (invFlag_locacao s (toString agora) (entidade b (Some v)) v);
      auto; simpl; apply truthy_texto; assumption.
  - rewrite cancelar_apos, cancelar_nominal.
    destruct (locacoes s !! id) as [l|] eqn:Hl; [|exact Hinv].
    simpl in Hd. specialize (Hd l Hl).
    destruct Hinv as (I1 & I2 & I3 & I4).
    destruct (I4 id l Hl) as [Hpl _].
    destruct (I2 id l Hl Hd) as [v Hv].
    cbn [snd store nominal]. rewrite (eqb_vazio_false _ Hpl), Hv.
    apply invFlag_cancelar; auto. split; [|split; [|split]]; assumption.
Qed.

(** C5 (as amended). In every state reached from the empty tables by
    requests that follow the discipline of the front end (a vehicle is
    registered available, a rental is asked for a stored vehicle whose flag
    is true, only an active rental is cancelled) with the service answering
    every call, each vehicle has [disponivel] false exactly when an active
    rental references its plate, and true otherwise. *)
Theorem disponibilidade_consistente (s : Store) :
  alcancavelDisciplinado s →
  ∀ (p : string) (v : Veiculo),
    veiculos s !! p = Some v →
    (disponivel v = false
     ↔ ∃ id l, locacoes s !! id = Some l
               ∧ placaVeiculo l = p ∧ status l = ativa)
    ∧ (disponivel v = true
       ↔ ¬ ∃ id l, locacoes s !! id = Some l
                   ∧ placaVeiculo l = p ∧ status l = ativa).
Proof.
  intros H.
  assert (Hinv : invFlag s).
  { induction H as [|s r _ IH Hd]; [apply invFlag_vazio|].
    apply invFlag_passo; assumption. }
  destruct Hinv as (I1 & _). intros p v Hv.
  specialize (I1 p v Hv). split; [exact I1|].
  rewrite <- I1. destruct (disponivel v); split; congruence.
Qed.

(** Two ways for a state not to be consistent. *)
Lemma inconsistente_livre s p v id l :
  veiculos s !! p = Some v → disponivel v = true →
  locacoes s !! id = Some l → placaVeiculo l = p → status l = ativa →
  ¬ consistente s.
Proof.
  intros Hv Hd Hl Hp Hs H. destruct (H p v Hv) as [_ H'].
  rewrite H' in Hd by eauto. discriminate.
Qed.

Lemma inconsistente_preso s p v :
  veiculos s !! p = Some v → disponivel v = false →
  (∀ id l, locacoes s !! id = Some l → placaVeiculo l = p →
           status l ≠ ativa) →
  ¬ consistente s.
Proof.
  intros Hv Hd Hnone H. destruct (H p v Hv) as [H' _].
  destruct (H' Hd) as (id & l & Hl & Hp & Hs). exact (Hnone id l Hl Hp Hs).
Qed.

(** * Further properties of the routes *)

(** ** Which table a route writes *)

Ltac rel_passo :=
  first
    [ apply preserva_ret | apply preserva_throw
    | apply preserva_getEntity | apply preserva_listEntities
    | apply preserva_chamada
    | apply preserva_createEntity
    | apply preserva_updateEntity
    | apply preserva_deleteEntity
    | apply preserva_bind | apply preserva_tryCatch
    | match goal with
      | |- ∀ _, preserva _ _ => intros ?
      | |- preserva _ (match ?x with _ => _ end) => destruct x eqn:?
      end ].

Ltac rel_fecha := intros; simpl in *; intuition congruence.

(** X1. Under every schedule of faults: the registration of a vehicle
    writes no client and no rental; the routes on clients write no vehicle
    and no rental; the listing writes nothing; rental creation and
    cancellation write no client. *)
Theorem cada_rota_na_sua_tabela (r : Requisicao)
  (fs : list (option RestError)) (s : Store) :
  match r with
  | PostVeiculos _ =>
      clientes (apos r fs s) = clientes s
      ∧ locacoes (apos r fs s) = locacoes s
  | PostClientes _ _ | PutClientes _ _ | DeleteClientes _ =>
      veiculos (apos r fs s) = veiculos s
      ∧ locacoes (apos r fs s) = locacoes s
  | GetVeiculosDisponiveis _ _ => apos r fs s = s
  | PostLocacoes _ _ | PostCancelarLocacao _ =>
      clientes (apos r fs s) = clientes s
  end.
Proof.
  destruct r as [b|agora b|id b|id|qm qd|agora b|id].
  - apply (λ (H : preserva (λ a b, clientes b = clientes a
                                   ∧ locacoes b = locacoes a) _),
             H {| store := s; falhas := fs |}).
    simpl. unfold postVeiculos, uploadData.
    repeat (rel_passo; try (rel_fecha; fail)).
  - exact (clientes_naoToca (PostClientes agora b) fs s).
  - exact (clientes_naoToca (PutClientes id b) fs s).
  - exact (clientes_naoToca (DeleteClientes id) fs s).
  - apply (λ (H : preserva (λ a b, b = a) _),
             H {| store := s; falhas := fs |}).
    simpl. unfold getVeiculosDisponiveis.
    repeat (rel_passo; try (rel_fecha; fail)).
  - apply (λ (H : preserva (λ a b, clientes b = clientes a) _),
             H {| store := s; falhas := fs |}).
    simpl. unfold postLocacoes.
    repeat (rel_passo; try (rel_fecha; fail)).
  - apply (λ (H : preserva (λ a b, clientes b = clientes a) _),
             H {| store := s; falhas := fs |}).
    simpl. unfold postCancelarLocacao.
    repeat (rel_passo; try (rel_fecha; fail)).
Qed.

(** ** Vehicles *)

(** Every vehicle of [s] is still stored in [s'] with the attributes it
    had. *)
Definition veiculosFicam (s s' : Store) : Prop :=
  ∀ p v, veiculos s !! p = Some v →
    ∃ v', veiculos s' !! p = Some v' ∧ mesmosAtributos v v'.

Lemma veiculosFicam_refl s : veiculosFicam s s.
Proof. intros p v H. exists v. repeat split; auto. Qed.

Lemma veiculosFicam_trans a b c :
  veiculosFicam a b → veiculosFicam b c → veiculosFicam a c.
Proof.
  intros Hab Hbc p v H.
  destruct (Hab p v H) as (v1 & H1 & E1 & E2 & E3 & E4 & E5).
  destruct (Hbc p v1 H1) as (v2 & H2 & F1 & F2 & F3 & F4 & F5).
  exists v2. split; [exact H2|]. repeat split; congruence.
Qed.

Lemma veiculosFicam_escritas : escritasPermitidas veiculosFicam.
Proof.
  split; simpl; intros s k; intros;
    try (intros p v' Hv'; exists v'; simpl; repeat split; auto; fail).
  - intros p v' Hv'. exists v'. simpl.
    rewrite lookup_insert_ne by congruence. repeat split; auto.
  - intros p v' Hv'. simpl.
    destruct (decide (k = p)) as [->|Hne].
    + rewrite lookup_insert_eq. eexists. split; [reflexivity|].
      simplify_eq. repeat split.
    + rewrite lookup_insert_ne by exact Hne. exists v'. repeat split; auto.
Qed.

(** X2. Vehicles are permanent: across every sequence of requests, under
    every schedule of faults, a stored vehicle stays stored under its plate
    with the brand, model, year, daily rate and image URL it was registered
    with; no route deletes a vehicle or edits one, the flag apart. *)
Theorem veiculos_permanentes
  (rs : list (Requisicao * list (option RestError))) (s : Store)
  (p : string) (v : Veiculo) :
  veiculos s !! p = Some v →
  ∃ v' : Veiculo,
    veiculos (executarTodas rs s) !! p = Some v'
    ∧ marca v' = marca v ∧ modelo v' = modelo v ∧ ano v' = ano v
    ∧ precoDiaria v' = precoDiaria v ∧ urlImagem v' = urlImagem v.
Proof.
  intros H.
  exact (preserva_executarTodas veiculosFicam veiculosFicam_refl
           veiculosFicam_trans rs s veiculosFicam_escritas p v H).
Qed.

(** X3. A plate is registered once: under every schedule of faults the
    registration of a plate that is taken leaves the whole store as it is,
    and with the service answering it answers 500 with the message of the
    409 error. *)
Theorem cadastro_nao_sobrescreve (b : CorpoVeiculo) (s : Store) (v : Veiculo) :
  veiculos s !! cv_placa b = Some v →
  (∀ fs, apos (PostVeiculos b) fs s = s)
  ∧ executar (PostVeiculos b) (nominal s)
    = (inr (statusJson 500 (CErro (message jaExiste))), nominal s).
Proof.
  intros Hv. split.
  - intros fs. desdobra.
    destruct (cv_arquivo b); simpl;
      repeat first
        [ rewrite Hv | progress simpl
        | match goal with
          | |- context [match ?l with [] => _ | _ :: _ => _ end] =>
              destruct l as [|[?|] ?]
          end ];
      reflexivity.
  - desdobra. destruct (cv_arquivo b); simpl; rewrite Hv; reflexivity.
Qed.

(** The vehicles [GET /veiculos/disponiveis] answers when the scan is
    answered. *)
Definition disponiveisDe (s : Store) (q_marca q_modelo : option string)
  : list (string * Veiculo) :=
  filter (λ kv, passaFiltro q_marca q_modelo kv.2 = true)
    (filter (λ kv, disponivel kv.2 = true) (map_to_list (veiculos s))).

Lemma listagem_nominal (s : Store) (q_marca q_modelo : option string) :
  executar (GetVeiculosDisponiveis q_marca q_modelo) (nominal s)
  = (inr (json (CVeiculos (disponiveisDe s q_marca q_modelo))), nominal s).
Proof. reflexivity. Qed.

Lemma disponiveisDe_elem (s : Store) (qm qd : option string) k v :
  (k, v) ∈ disponiveisDe s qm qd
  ↔ veiculos s !! k = Some v ∧ disponivel v = true
    ∧ passaFiltro qm qd v = true.
Proof.
  unfold disponiveisDe.
  rewrite !list_elem_of_filter, elem_of_map_to_list. simpl. tauto.
Qed.

(** The vehicle that [POST /veiculos] stores. *)
Definition veiculoDe (b : CorpoVeiculo) : Veiculo :=
  {| marca := cv_marca b; modelo := cv_modelo b; ano := cv_ano b;
     urlImagem := default "" (cv_arquivo b);
     precoDiaria := cv_precoDiaria b;
     disponivel := ehVerdadeiro (cv_disponivel b) |}.

Lemma cadastro_nominal (b : CorpoVeiculo) (s : Store) :
  veiculos s !! cv_placa b = None →
  executar (PostVeiculos b) (nominal s)
  = (inr (json (CSucesso true None)),
     nominal {| veiculos := <[cv_placa b := veiculoDe b]> (veiculos s);
                clientes := clientes s; locacoes := locacoes s |}).
Proof.
  intros H. desdobra. unfold veiculoDe.
  destruct (cv_arquivo b); simpl; rewrite H; reflexivity.
Qed.

(** A plate that the table service takes as a row key for sure: at least
    one and at most 512 characters, each a letter, a digit or ['-']. The
    service refuses a key that holds [/], [\], [#], [?] or a control
    character, and one of more than 1 KiB. *)
Definition caractereDeChave (c : Ascii.ascii) : bool :=
  let n := Ascii.N_of_ascii c in
  ((48 <=? n)%N && (n <=? 57)%N)
  || ((65 <=? n)%N && (n <=? 90)%N)
  || ((97 <=? n)%N && (n <=? 122)%N)
  || (n =? 45)%N.

Definition chaveAceita (k : string) : bool :=
  forallb caractereDeChave (String.list_ascii_of_string k)
  && (1 <=? String.length k)%nat && (String.length k <=? 512)%nat.

(** X4. The registration of a free plate. When the plate is one the table
    service takes as a row key and the service answers, the vehicle is
    stored, with the empty string as image URL when no image comes with the
    request; the vehicle then is in the unfiltered listing exactly when the
    field [disponivel] of the body is the string ['true'] or the boolean
    [true]: with any other value, or none, it is stored unavailable and no
    listing shows it. When the service refuses the entity, as it does for a
    plate that holds [/], [\], [#] or [?], [createEntity] throws: the
    handler answers 500 with the message of the error and stores nothing. *)
Theorem cadastro_e_listagem (b : CorpoVeiculo) (s : Store) :
  veiculos s !! cv_placa b = None →
  (chaveAceita (cv_placa b) = true →
   ∃ (v : Veiculo) (s' : Store),
     executar (PostVeiculos b) (nominal s)
     = (inr (json (CSucesso true None)), nominal s')
     ∧ veiculos s' = <[cv_placa b := v]> (veiculos s)
     ∧ marca v = cv_marca b ∧ modelo v = cv_modelo b
     ∧ (cv_arquivo b = None → urlImagem v = "")
     ∧ ((cv_placa b, v) ∈ disponiveisDe s' None None
        ↔ cv_disponivel b = Texto "true" ∨ cv_disponivel b = Booleano true)
     ∧ (∀ qm qd v', (cv_placa b, v') ∈ disponiveisDe s' qm qd →
          cv_disponivel b = Texto "true" ∨ cv_disponivel b = Booleano true))
  ∧ (∀ (e : RestError) (fs : list (option RestError)),
       executar (PostVeiculos b)
         {| store := s;
            falhas := match cv_arquivo b with
                      | Some _ => None :: Some e :: fs
                      | None => Some e :: fs
                      end |}
       = (inr (statusJson 500 (CErro (message e))),
          {| store := s; falhas := fs |})).
Proof.
  intros H. split.
  - intros _.
    assert (Hd : ehVerdadeiro (cv_disponivel b) = true
                 ↔ cv_disponivel b = Texto "true"
                   ∨ cv_disponivel b = Booleano true).
    { destruct (cv_disponivel b) as [|[]|x]; simpl.
      - split; [discriminate | intros [?|?]; discriminate].
      - split; auto.
      - split; [discriminate | intros [?|?]; discriminate].
      - destruct (String.eqb_spec x "true") as [->|Hx]; split; auto.
        + discriminate.
        + intros [[=]|[=]]. contradiction. }
    exists (veiculoDe b). eexists. split; [apply cadastro_nominal, H|].
    cbn [veiculos]. split; [reflexivity|].
    split; [reflexivity|]. split; [reflexivity|].
    split; [intros E; cbn; rewrite E; reflexivity|]. split.
    + rewrite disponiveisDe_elem. cbn [veiculos].
      rewrite lookup_insert_eq, <- Hd. cbn [veiculoDe disponivel].
      split; [tauto|]. intros E. repeat split; auto.
    + intros qm qd v' Hin. apply disponiveisDe_elem in Hin.
      cbn [veiculos] in Hin. rewrite lookup_insert_eq in Hin.
      destruct Hin as ([= <-] & Hdisp & _). apply Hd, Hdisp.
  - intros e fs. desdobra. destruct (cv_arquivo b); reflexivity.
Qed.

(** The image goes first: when an image comes with the registration
    and its upload throws, the handler answers 500 with the message of the
    error, calls the table service no more and stores nothing. *)
Theorem cadastro_upload_falha (b : CorpoVeiculo) (s : Store) (u : string)
  (e : RestError) (fs : list (option RestError)) :
  cv_arquivo b = Some u →
  executar (PostVeiculos b) {| store := s; falhas := Some e :: fs |}
  = (inr (statusJson 500 (CErro (message e))),
     {| store := s; falhas := fs |}).
Proof. intros H. desdobra. rewrite H. reflexivity. Qed.

(** ** Clients *)

(** X6. [PUT /clientes/:id] with the service answering: for an id that is
    not stored it answers 500, not 404, and writes nothing, so it never
    creates a client; for a stored client it answers success and overwrites
    the fields that the body gives, each field that the body leaves out
    keeping its stored value; sending the same body again changes nothing
    more. *)
Theorem atualizacao_de_cliente (id : string) (b : CorpoCliente) (s : Store) :
  (clientes s !! id = None →
     executar (PutClientes id b) (nominal s)
     = (inr (statusJson 500 (CErro (message naoEncontrado))), nominal s))
  ∧ (∀ c : Cliente,
       clientes s !! id = Some c →
       ∃ c' : Cliente,
         executar (PutClientes id b) (nominal s)
         = (inr (json (CSucesso true None)),
            nominal {| veiculos := veiculos s;
                       clientes := <[id := c']> (clientes s);
                       locacoes := locacoes s |})
         ∧ (∀ x, cc_nome b = Some x → nome c' = Some x)
         ∧ (cc_nome b = None → nome c' = nome c)
         ∧ (∀ x, cc_email b = Some x → email c' = Some x)
         ∧ (cc_email b = None → email c' = email c)
         ∧ (∀ x, cc_telefone b = Some x → telefone c' = Some x)
         ∧ (cc_telefone b = None → telefone c' = telefone c)
         ∧ apos (PutClientes id b) [] (apos (PutClientes id b) [] s)
           = apos (PutClientes id b) [] s).
Proof.
  split.
  - intros H. desdobra. rewrite H. reflexivity.
  - intros c H.
    exists (mergeCliente (cc_nome b) (cc_email b) (cc_telefone b) c).
    split; [desdobra; rewrite H; simpl; rewrite H; reflexivity|].
    unfold mergeCliente, mesclar. simpl.
    repeat (split; [intros; destruct (cc_nome b), (cc_email b),
                      (cc_telefone b); simplify_eq; reflexivity|]).
    desdobra. rewrite H. simpl. rewrite H. simpl.
    rewrite lookup_insert_eq. simpl. rewrite lookup_insert_eq. simpl.
    rewrite insert_insert_eq. f_equal. f_equal.
    unfold mergeCliente, mesclar. simpl.
    destruct (cc_nome b), (cc_email b), (cc_telefone b); reflexivity.
Qed.

(** The client that [POST /clientes] stores. *)
Definition clienteDe (b : CorpoCliente) : Cliente :=
  {| nome := cc_nome b; email := cc_email b; telefone := cc_telefone b |}.

(** X7. The identifier of a client is the millisecond of its registration:
    with the service answering, a registration at a millisecond that is free
    stores the client under that identifier, and a second registration at
    the same millisecond answers 500 and is not stored, the first client
    staying as it is. *)
Theorem cadastro_de_cliente_no_mesmo_instante (agora : N)
  (b1 b2 : CorpoCliente) (s : Store) :
  clientes s !! toString agora = None →
  ∃ s' : Store,
    executar (PostClientes agora b1) (nominal s)
    = (inr (json (CSucesso true None)), nominal s')
    ∧ clientes s' = <[toString agora := clienteDe b1]> (clientes s)
    ∧ veiculos s' = veiculos s ∧ locacoes s' = locacoes s
    ∧ executar (PostClientes agora b2) (nominal s')
      = (inr (statusJson 500 (CErro (message jaExiste))), nominal s').
Proof.
  intros H. eexists. split.
  - desdobra. rewrite H. reflexivity.
  - cbn [clientes veiculos locacoes]. repeat split.
    desdobra. rewrite lookup_insert_eq. reflexivity.
Qed.

(** X8. Registering a client and deleting it again is a round trip: with
    the service answering, when the identifier is free and no active rental
    names it as its client, both requests answer success and the store is
    the one before the registration. *)
Theorem cliente_ida_e_volta (agora : N) (b : CorpoCliente) (s : Store) :
  clientes s !! toString agora = None →
  (∀ k l, locacoes s !! k = Some l →
          ¬ (clienteId l = toString agora ∧ status l = ativa)) →
  (executar (PostClientes agora b) (nominal s)).1
  = inr (json (CSucesso true None))
  ∧ (executar (DeleteClientes (toString agora))
       (nominal (apos (PostClientes agora b) [] s))).1
    = inr (json (CSucesso true (Some "Cliente excluído com sucesso")))
  ∧ apos (DeleteClientes (toString agora)) []
      (apos (PostClientes agora b) [] s) = s.
Proof.
  intros Hfresh Hnone.
  assert (H : (temLocacoesAtivas (toString agora)
                 (map_to_list (locacoes s))).1 = false).
  { apply not_true_is_false. intros H.
    apply temLocacoesAtivas_true in H as (k & l & Hl & H).
    apply elem_of_map_to_list in Hl. exact (Hnone k l Hl H). }
  split; [desdobra; rewrite Hfresh; reflexivity|].
  split.
  - desdobra. rewrite Hfresh. simpl. rewrite lookup_insert_eq. simpl.
    rewrite filter_tudo, H. simpl. rewrite lookup_insert_eq. reflexivity.
  - desdobra. rewrite Hfresh. simpl. rewrite lookup_insert_eq. simpl.
    rewrite filter_tudo, H. simpl. rewrite lookup_insert_eq. simpl.
    rewrite delete_insert_id by exact Hfresh. destruct s; reflexivity.
Qed.

(** X9. The guard of the deletion holds under every schedule of faults: a
    stored client that an active rental names is never deleted, the store
    is left as it is, and the answer is not a success. *)
Theorem cliente_com_locacao_ativa_fica (id : string) (s : Store)
  (c : Cliente) (k : string) (l : Locacao) (fs : list (option RestError)) :
  clientes s !! id = Some c →
  locacoes s !! k = Some l → clienteId l = id → status l = ativa →
  ∃ (resp : Resposta) (fs' : list (option RestError)),
    executar (DeleteClientes id) {| store := s; falhas := fs |}
    = (inr resp, {| store := s; falhas := fs' |})
    ∧ codigo resp ≠ 200.
Proof.
  intros Hc Hl Hid Hs.
  assert (H : (temLocacoesAtivas id (map_to_list (locacoes s))).1 = true).
  { apply temLocacoesAtivas_true. exists k, l.
    split; [by apply elem_of_map_to_list | auto]. }
  desdobra.
  destruct fs as [|[e|] fs]; simpl; rewrite ?Hc; simpl.
  - rewrite filter_tudo, H. simpl. eexists _, _. split; [reflexivity|].
    discriminate.
  - destruct (statusCode e =? 404); eexists _, _;
      (split; [reflexivity | discriminate]).
  - destruct fs as [|[e|] fs]; simpl.
    + rewrite filter_tudo, H. simpl. eexists _, _.
      split; [reflexivity | discriminate].
    + destruct (statusCode e =? 404); eexists _, _;
        (split; [reflexivity | discriminate]).
    + rewrite filter_tudo, H. simpl. eexists _, _.
      split; [reflexivity | discriminate].
Qed.

(** X10. Any error with status 404 is reported as a missing client: when a
    call of the deletion throws such an error (the lookup, the scan of the
    rentals or the delete itself), the handler answers 404 with the message
    that the client was not found, although the client is stored, and
    writes nothing. *)
Theorem exclusao_404_por_falha (id : string) (s : Store) (c : Cliente)
  (e : RestError) :
  clientes s !! id = Some c →
  statusCode e = 404 →
  executar (DeleteClientes id) {| store := s; falhas := [Some e] |}
  = (inr (statusJson 404 (CSucesso false (Some "Cliente não encontrado"))),
     nominal s)
  ∧ executar (DeleteClientes id) {| store := s; falhas := [None; Some e] |}
    = (inr (statusJson 404 (CSucesso false (Some "Cliente não encontrado"))),
       nominal s)
  ∧ ((∀ k l, locacoes s !! k = Some l →
             ¬ (clienteId l = id ∧ status l = ativa)) →
     executar (DeleteClientes id)
       {| store := s; falhas := [None; None; Some e] |}
     = (inr (statusJson 404 (CSucesso false (Some "Cliente não encontrado"))),
        nominal s)).
Proof.
  intros Hc He. split; [|split].
  - desdobra. rewrite He. simpl. destruct s; reflexivity.
  - desdobra. rewrite Hc. simpl. rewrite He. simpl. reflexivity.
  - intros Hnone.
    assert (H : (temLocacoesAtivas id (map_to_list (locacoes s))).1 = false).
    { apply not_true_is_false. intros H.
      apply temLocacoesAtivas_true in H as (k & l & Hl & H).
      apply elem_of_map_to_list in Hl. exact (Hnone k l Hl H). }
    desdobra. rewrite Hc. simpl. rewrite filter_tudo, H. simpl.
    rewrite He. simpl. reflexivity.
Qed.

(** ** Rentals and the listing *)

(** X11. How a cancellation fails. With the service answering, an unknown
    identifier gets 500 (not 404) and nothing is written. When the write of
    the status throws, the answer is 500 and nothing is written. When it is
    the lookup or the write of the vehicle that throws, the failure is
    swallowed: the answer is success, the rental is stored cancelled and the
    vehicles are left as they were, so the vehicle stays unavailable. *)
Theorem cancelamento_falhas (id : string) (s : Store) :
  (locacoes s !! id = None →
     executar (PostCancelarLocacao id) (nominal s)
     = (inr (statusJson 500 (CErro (message naoEncontrado))), nominal s))
  ∧ (∀ (l : Locacao) (e : RestError),
       locacoes s !! id = Some l →
       executar (PostCancelarLocacao id)
         {| store := s; falhas := [None; Some e] |}
       = (inr (statusJson 500 (CErro (message e))), nominal s)
       ∧ ∀ fs, fs = [None; None; Some e] ∨ fs = [None; None; None; Some e] →
           ∃ w' : World,
             executar (PostCancelarLocacao id) {| store := s; falhas := fs |}
             = (inr (json (CSucesso true None)), w')
             ∧ store w'
               = {| veiculos := veiculos s; clientes := clientes s;
                    locacoes := <[id := mergeStatus cancelada l]>
                                  (locacoes s) |}).
Proof.
  split.
  - intros H. rewrite cancelar_nominal, H. reflexivity.
  - intros l e Hl. split.
    + desdobra. rewrite Hl. simpl. destruct s; reflexivity.
    + intros fs [-> | ->]; desdobra; rewrite Hl; simpl; rewrite Hl; simpl;
        destruct (String.eqb (placaVeiculo l) ""); simpl;
        try (eexists; split; reflexivity);
        destruct (veiculos s !! placaVeiculo l) eqn:Hv; simpl;
        rewrite ?Hv; simpl; eexists; split; reflexivity.
Qed.

(** X12. A rented vehicle leaves the listing: with the service answering,
    after the creation of a rental for a stored vehicle, under a free
    identifier, no listing, whatever its filters, holds the plate of the
    vehicle, and the listings hold of every other plate what they held
    before. *)
Theorem locacao_tira_da_listagem (agora : N) (b : CorpoLocacao) (s : Store)
  (v : Veiculo) :
  truthy (cl_placaVeiculo b) = true →
  truthy (cl_clienteId b) = true →
  veiculos s !! texto (cl_placaVeiculo b) = Some v →
  locacoes s !! toString agora = None →
  (executar (PostLocacoes agora b) (nominal s)).1
  = inr (json (CSucesso true None))
  ∧ ∀ (qm qd : option string) (k : string) (v' : Veiculo),
      (k, v') ∈ disponiveisDe (apos (PostLocacoes agora b) [] s) qm qd
      ↔ k ≠ texto (cl_placaVeiculo b) ∧ (k, v') ∈ disponiveisDe s qm qd.
Proof.
  intros Hp Hc Hv Hfresh. split.
  - desdobra. rewrite Hp, Hc. simpl. rewrite Hv. simpl.
    rewrite Hfresh. simpl. rewrite Hv. reflexivity.
  - intros qm qd k v'. rewrite locacao_nominal, Hp, Hc. simpl.
    rewrite Hfresh, Hv, !disponiveisDe_elem. cbn [veiculos].
    destruct (decide (texto (cl_placaVeiculo b) = k)) as [<-|Hne].
    + rewrite lookup_insert_eq. split.
      * intros ([= <-] & Hd & _). discriminate.
      * intros [Hk _]. contradiction.
    + rewrite lookup_insert_ne by exact Hne. split.
      * intros H. split; [congruence | exact H].
      * intros [_ H]. exact H.
Qed.

(** X13. Renting and cancelling is a round trip for the vehicle: with the
    service answering, after the creation of a rental for a stored vehicle,
    under a free identifier, and the cancellation of that rental, the rental
    is stored cancelled, the vehicle is stored available with its other
    attributes as before, so the vehicles are the ones before the rental when
    the vehicle was available, and the unfiltered listing holds the vehicle
    again. *)
Theorem aluguel_ida_e_volta (agora : N) (b : CorpoLocacao) (s : Store)
  (v : Veiculo) :
  truthy (cl_placaVeiculo b) = true →
  truthy (cl_clienteId b) = true →
  veiculos s !! texto (cl_placaVeiculo b) = Some v →
  locacoes s !! toString agora = None →
  ∃ s2 : Store,
    apos (PostCancelarLocacao (toString agora)) []
      (apos (PostLocacoes agora b) [] s) = s2
    ∧ locacoes s2
      = <[toString agora := mergeStatus cancelada (entidade b (Some v))]>
          (locacoes s)
    ∧ veiculos s2
      = <[texto (cl_placaVeiculo b) := mergeDisponivel true v]> (veiculos s)
    ∧ clientes s2 = clientes s
    ∧ (disponivel v = true → veiculos s2 = veiculos s)
    ∧ (texto (cl_placaVeiculo b), mergeDisponivel true v)
      ∈ disponiveisDe s2 None None.
Proof.
  intros Hp Hc Hv Hfresh.
  destruct (truthy_texto _ Hp) as [_ Hplaca].
  eexists. split.
  - rewrite locacao_nominal, Hp, Hc. simpl. rewrite Hfresh, Hv.
    rewrite cancelar_apos, cancelar_nominal. cbn [locacoes].
    rewrite lookup_insert_eq. cbn [snd store nominal].
    cbn [entidade placaVeiculo veiculos clientes].
    rewrite (eqb_vazio_false _ Hplaca), lookup_insert_eq.
    rewrite !insert_insert_eq. reflexivity.
  - cbn [locacoes veiculos clientes]. split; [reflexivity|].
    split; [reflexivity|]. split; [reflexivity|]. split.
    + intros Hd. apply insert_id. rewrite Hv. f_equal.
      destruct v; simpl in *; subst; reflexivity.
    + apply disponiveisDe_elem. cbn [veiculos].
      rewrite lookup_insert_eq. repeat split.
Qed.

(** X14. The two filters of the listing compose: with the service
    answering, the listing with a brand and a model is the listing with the
    brand alone, filtered by the model, in the same order; and every listing
    is part of the unfiltered one. *)
Theorem filtros_compoem (s : Store) (qm qd : option string) :
  ∃ porMarca todos : list (string * Veiculo),
    executar (GetVeiculosDisponiveis qm None) (nominal s)
    = (inr (json (CVeiculos porMarca)), nominal s)
    ∧ executar (GetVeiculosDisponiveis None None) (nominal s)
      = (inr (json (CVeiculos todos)), nominal s)
    ∧ executar (GetVeiculosDisponiveis qm qd) (nominal s)
      = (inr (json (CVeiculos
           (filter (λ kv, passaFiltro None qd kv.2 = true) porMarca))),
         nominal s)
    ∧ porMarca `sublist_of` todos.
Proof.
  exists (disponiveisDe s qm None), (disponiveisDe s None None).
  split; [apply listagem_nominal|]. split; [apply listagem_nominal|].
  split.
  - rewrite listagem_nominal. do 4 f_equal.
    unfold disponiveisDe. rewrite !list_filter_filter.
    apply list_filter_iff. intros [k v]. simpl.
    unfold passaFiltro. simpl. rewrite !andb_true_iff. tauto.
  - assert (E : disponiveisDe s qm None
                = filter (λ kv, passaFiltro qm None kv.2 = true)
                    (disponiveisDe s None None)).
    { unfold disponiveisDe. rewrite !list_filter_filter.
      apply list_filter_iff. intros [k v]. simpl. tauto. }
    rewrite E. apply sublist_filter.
Qed.

Ltac por_casos :=
  repeat first
    [ progress simpl
    | match goal with
      | H : ?x = _ |- context [match ?x with _ => _ end] => rewrite H
      | |- context [match ?l with [] => _ | _ :: _ => _ end] =>
          destruct l as [|[?|] ?]
      | |- context [match ?m !! ?k with Some _ => _ | None => _ end] =>
          destruct (m !! k) eqn:?
      | |- context [if ?b then _ else _] => destruct b eqn:?
      end ].

(** X5. A rental request touches its own rental and its own vehicle
    only: under every schedule of faults, the creation of a rental leaves
    every rental under another identifier and every vehicle under another
    plate as stored, and so does the cancellation of a rental, its vehicle
    being the one under the plate of the rental cancelled. *)
Theorem locacao_so_toca_no_que_e_seu (fs : list (option RestError))
  (s : Store) (k p : string) :
  (∀ agora b,
     (k ≠ toString agora →
      locacoes (apos (PostLocacoes agora b) fs s) !! k = locacoes s !! k)
     ∧ (p ≠ texto (cl_placaVeiculo b) →
        veiculos (apos (PostLocacoes agora b) fs s) !! p = veiculos s !! p))
  ∧ (∀ id,
       (k ≠ id →
        locacoes (apos (PostCancelarLocacao id) fs s) !! k
        = locacoes s !! k)
       ∧ (locacoes s !! id = None →
          veiculos (apos (PostCancelarLocacao id) fs s) = veiculos s)
       ∧ (∀ l, locacoes s !! id = Some l → p ≠ placaVeiculo l →
            veiculos (apos (PostCancelarLocacao id) fs s) !! p
            = veiculos s !! p)).
Proof.
  split.
  - intros agora b. split; intros Hne; desdobra; por_casos;
      rewrite ?lookup_insert_ne by congruence; reflexivity.
  - intros id. split; [|split].
    + intros Hne. desdobra. por_casos;
        rewrite ?lookup_insert_ne by congruence; reflexivity.
    + intros Hnone. desdobra. por_casos; reflexivity.
    + intros l Hl Hne. desdobra. por_casos;
        rewrite ?lookup_insert_ne by congruence; reflexivity.
Qed.

(** * Blob names *)

(** A JavaScript string as its UTF-16 code units, which is what a regular
    expression without the [u] flag works on. *)
Abbreviation unidades := (list N).

(** The class [a-zA-Z0-9\-_.] *)
Definition permitido (c : N) : bool :=
  ((97 <=? c) && (c <=? 122) || (65 <=? c) && (c <=? 90)
   || (48 <=? c) && (c <=? 57) || (c =? 45) || (c =? 95) || (c =? 46))%N.

(** [nome.replace(/[^a-zA-Z0-9\-_.]/g, '_')] *)
Definition normalizarNomeArquivo (nome : unidades) : unidades :=
  (λ c, if permitido c then c else 95%N) <$> nome.

(** * [POST /upload-veiculo] *)

Inductive CorpoUpload := CUrl (url : string) | CErroUpload (error : string).

(** [arquivo] is [req.file.originalname], [None] when the request carries
    no file, in which case reading [req.file.originalname] throws the
    [TypeError] [erroDeTipo], of which the handler reads the message;
    [urlDe] gives [blockBlobClient.url] for the name of a blob. *)
Definition postUploadVeiculo (urlDe : unidades → string)
  (erroDeTipo : RestError) (arquivo : option unidades)
  : M (Z * CorpoUpload) :=
  tryCatch
    (await originalname <-
       match arquivo with
       | Some n => ret n
       | None => throw erroDeTipo
       end;
     let nomeArquivo := normalizarNomeArquivo originalname in
     await _ <- uploadData;
     ret (200, CUrl (urlDe nomeArquivo)))
    (λ err, ret (500, CErroUpload (message err))).

Lemma permitido_sublinhado : permitido 95 = true.
Proof. reflexivity. Qed.

Lemma normalizar_permitido (c : N) :
  permitido (if permitido c then c else 95%N) = true.
Proof. destruct (permitido c) eqn:E; [exact E | reflexivity]. Qed.

(** X15. The name of a blob has as many code units as the name of the file
    and only letters, digits, ['-'], ['_'] and ['.']: every other code unit,
    a path separator or a space as well as half of a surrogate pair, has
    become ['_'], and the units of the class are where they were. *)
Theorem nome_normalizado (nome : unidades) :
  length (normalizarNomeArquivo nome) = length nome
  ∧ Forall (λ c, permitido c = true) (normalizarNomeArquivo nome)
  ∧ ∀ i c, nome !! i = Some c →
      normalizarNomeArquivo nome !! i
      = Some (if permitido c then c else 95%N).
Proof.
  unfold normalizarNomeArquivo. split; [apply length_fmap|]. split.
  - apply Forall_fmap, Forall_forall. intros c _.
    apply normalizar_permitido.
  - intros i c H. rewrite list_lookup_fmap, H. reflexivity.
Qed.

(** X16. Normalising is idempotent, and the names it leaves as they are are
    exactly the names made of the class only. *)
Theorem normalizar_idempotente (nome : unidades) :
  normalizarNomeArquivo (normalizarNomeArquivo nome)
  = normalizarNomeArquivo nome
  ∧ (normalizarNomeArquivo nome = nome
     ↔ Forall (λ c, permitido c = true) nome).
Proof.
  unfold normalizarNomeArquivo. split.
  - rewrite <- list_fmap_compose. apply list_fmap_ext. intros i c _.
    simpl. rewrite normalizar_permitido. reflexivity.
  - induction nome as [|c nome IH]; [split; [constructor | reflexivity]|].
    rewrite fmap_cons. split.
    + intros [= Hc Hn]. constructor; [|apply IH, Hn].
      destruct (permitido c) eqn:E; [reflexivity|]. subst c. discriminate.
    + intros H. inversion H as [|? ? Hc Hn]; subst.
      rewrite Hc. f_equal. apply IH, Hn.
Qed.

(** X17. [POST /upload-veiculo] under every schedule of faults writes no
    table. Without a file it answers 500 and calls no service; with a file
    it makes one call: when the call throws it answers 500 with the message
    of the error, otherwise it answers the URL of the blob named by the
    normalised name, so that a file name and its normalised form get the
    same URL. *)
Theorem upload_de_imagem (urlDe : unidades → string) (erroDeTipo : RestError)
  (s : Store) (fs : list (option RestError)) :
  postUploadVeiculo urlDe erroDeTipo None {| store := s; falhas := fs |}
  = (inr (500, CErroUpload (message erroDeTipo)),
     {| store := s; falhas := fs |})
  ∧ ∀ nome : unidades,
      (∀ e, postUploadVeiculo urlDe erroDeTipo (Some nome)
              {| store := s; falhas := Some e :: fs |}
            = (inr (500, CErroUpload (message e)),
               {| store := s; falhas := fs |}))
      ∧ postUploadVeiculo urlDe erroDeTipo (Some nome)
          {| store := s; falhas := None :: fs |}
        = (inr (200, CUrl (urlDe (normalizarNomeArquivo nome))),
           {| store := s; falhas := fs |})
      ∧ postUploadVeiculo urlDe erroDeTipo (Some nome) (nominal s)
        = (inr (200, CUrl (urlDe (normalizarNomeArquivo nome))), nominal s)
      ∧ postUploadVeiculo urlDe erroDeTipo
          (Some (normalizarNomeArquivo nome)) (nominal s)
        = postUploadVeiculo urlDe erroDeTipo (Some nome) (nominal s).
Proof.
  split; [reflexivity|]. intros nome.
  split; [reflexivity|]. split; [reflexivity|]. split; [reflexivity|].
  unfold postUploadVeiculo, tryCatch, bind, ret, uploadData, chamada, nominal.
  simpl. destruct (normalizar_idempotente nome) as [-> _]. reflexivity.
Qed.

(** * The read-only routes *)

(** [rowKey] and entity of a client as [GET /clientes] sends them; the
    vehicle and the client of a joined rental as [GET /veiculos/alugados]
    builds them. *)
Record VeiculoAlugado := {
  va_marca : option string;
  va_modelo : option string;
  va_ano : num;
  va_precoDiaria : num;
  va_urlImagem : string;
  va_placa : string
}.

Record ClienteAlugado := {
  ca_nome : option string;
  ca_email : option string;
  ca_telefone : option string;
  ca_id : string
}.

Record Alugado := {
  a_id : string;
  a_dataInicio : option string;
  a_dataFim : option string;
  a_status : Status;
  a_valorTotal : num;
  a_veiculo : option VeiculoAlugado;
  a_cliente : option ClienteAlugado
}.

Inductive CorpoConsulta :=
| CTextos (xs : list (option string))
| CClientes (cs : list (string * Cliente))
| CAlugados (ls : list Alugado)
| CErroConsulta (error : string).

(** [set.add(x)] on a [Set] kept as the list of its elements in insertion
    order, which is the order of [Array.from(set)]. *)
Definition adicionar {A} `{EqDecision A} (x : A) (set : list A) : list A :=
  if decide (x ∈ set) then set else set ++ [x].

(** [GET /marcas] *)
Definition getMarcas : M (Z * CorpoConsulta) :=
  tryCatch
    (await iter <- listEntities tabelaVeiculos (λ _, true);
     let marcas :=
       foldl (λ set kv, if truthy (marca kv.2)
                        then adicionar (marca kv.2) set else set) [] iter in
     ret (200, CTextos marcas))
    (λ err, ret (500, CErroConsulta (message err))).

(** [GET /modelos/:marca] *)
Definition getModelos (q_marca : string) : M (Z * CorpoConsulta) :=
  tryCatch
    (await iter <- listEntities tabelaVeiculos (λ _, true);
     let modelos :=
       foldl (λ set kv, if estritamenteIgual (marca kv.2) (Some q_marca)
                        then adicionar (modelo kv.2) set else set) [] iter in
     ret (200, CTextos modelos))
    (λ err, ret (500, CErroConsulta (message err))).

(** [GET /clientes] *)
Definition getClientes : M (Z * CorpoConsulta) :=
  tryCatch
    (await iter <- listEntities tabelaClientes (λ _, true);
     ret (200, CClientes iter))
    (λ err, ret (500, CErroConsulta (message err))).

Lemma adicionar_elem {A} `{EqDecision A} (x y : A) (set : list A) :
  y ∈ adicionar x set ↔ y ∈ set ∨ y = x.
Proof.
  unfold adicionar. destruct (decide (x ∈ set)) as [Hin|Hnin].
  - split; [auto|]. intros [?| ->]; assumption.
  - rewrite elem_of_app, list_elem_of_singleton. tauto.
Qed.

Lemma adicionar_NoDup {A} `{EqDecision A} (x : A) (set : list A) :
  NoDup set → NoDup (adicionar x set).
Proof.
  intros Hnd. unfold adicionar. destruct (decide (x ∈ set)) as [Hin|Hnin].
  - exact Hnd.
  - apply NoDup_app. split; [exact Hnd|]. split.
    + intros y Hy Hy'. apply list_elem_of_singleton in Hy'. congruence.
    + apply NoDup_singleton.
Qed.

(** The loops of [GET /marcas] and [GET /modelos/:marca]. *)
Lemma coleta_spec {A B} `{EqDecision B} (cond : A → bool) (f : A → B)
  (l : list A) (acc : list B) :
  (NoDup acc →
   NoDup (foldl (λ set a, if cond a then adicionar (f a) set else set) acc l))
  ∧ ∀ x, x ∈ foldl (λ set a, if cond a then adicionar (f a) set else set)
               acc l
         ↔ x ∈ acc ∨ ∃ a, a ∈ l ∧ cond a = true ∧ f a = x.
Proof.
  revert acc. induction l as [|a l IH]; intros acc; simpl.
  - split; [auto|]. intros x. split; [auto|].
    intros [H|(a & H & _)]; [exact H|]. by apply not_elem_of_nil in H.
  - destruct (IH (if cond a then adicionar (f a) acc else acc)) as [IH1 IH2].
    split.
    + intros Hnd. apply IH1. destruct (cond a); [|exact Hnd].
      apply adicionar_NoDup, Hnd.
    + intros x. rewrite IH2. destruct (cond a) eqn:Hc.
      * rewrite adicionar_elem. split.
        -- intros [[H| ->]|(a' & H & H')].
           ++ auto.
           ++ right. exists a. split; [apply list_elem_of_here | auto].
           ++ right. exists a'. split; [by apply list_elem_of_further | auto].
        -- intros [H|(a' & H & Hc' & Hf)]; [auto|].
           apply elem_of_cons in H as [->|H]; [auto|].
           right. exists a'. auto.
      * split.
        -- intros [H|(a' & H & H')]; [auto|].
           right. exists a'. split; [by apply list_elem_of_further | auto].
        -- intros [H|(a' & H & Hc' & Hf)]; [auto|].
           apply elem_of_cons in H as [->|H]; [congruence|].
           right. exists a'. auto.
Qed.

Lemma marcas_spec (s : Store) :
  ∃ xs : list (option string),
    getMarcas (nominal s) = (inr (200, CTextos xs), nominal s)
    ∧ NoDup xs
    ∧ ∀ o, o ∈ xs ↔
        ∃ x k v, o = Some x ∧ x ≠ ""
                 ∧ veiculos s !! k = Some v ∧ marca v = Some x.
Proof.
  eexists. split; [reflexivity|].
  rewrite filter_tudo.
  destruct (coleta_spec (λ kv : string * Veiculo, truthy (marca kv.2))
              (λ kv, marca kv.2) (map_to_list (veiculos s)) []) as [Hnd Hin].
  split; [apply Hnd, NoDup_nil_2|].
  intros o. rewrite Hin. split.
  - intros [H|([k v] & Hkv & Ht & <-)]; [by apply not_elem_of_nil in H|].
    simpl in *. apply elem_of_map_to_list in Hkv.
    destruct (truthy_texto _ Ht) as [E Hne].
    exists (texto (marca v)), k, v. auto.
  - intros (x & k & v & -> & Hx & Hv & Hm). right. exists (k, v). simpl.
    split; [by apply elem_of_map_to_list|]. rewrite Hm. simpl.
    split; [|reflexivity]. rewrite (eqb_vazio_false _ Hx). reflexivity.
Qed.

Lemma modelos_spec (s : Store) (q_marca : string) :
  ∃ xs : list (option string),
    getModelos q_marca (nominal s) = (inr (200, CTextos xs), nominal s)
    ∧ NoDup xs
    ∧ ∀ o, o ∈ xs ↔
        ∃ k v, veiculos s !! k = Some v
               ∧ marca v = Some q_marca ∧ modelo v = o.
Proof.
  eexists. split; [reflexivity|].
  rewrite filter_tudo.
  destruct (coleta_spec
              (λ kv : string * Veiculo,
                 estritamenteIgual (marca kv.2) (Some q_marca))
              (λ kv, modelo kv.2) (map_to_list (veiculos s)) [])
    as [Hnd Hin].
  split; [apply Hnd, NoDup_nil_2|].
  intros o. rewrite Hin. split.
  - intros [H|([k v] & Hkv & Ht & <-)]; [by apply not_elem_of_nil in H|].
    simpl in *. apply elem_of_map_to_list in Hkv.
    apply estritamenteIgual_Some in Ht. eauto.
  - intros (k & v & Hv & Hm & <-). right. exists (k, v). simpl.
    split; [by apply elem_of_map_to_list|].
    split; [by apply estritamenteIgual_Some | reflexivity].
Qed.

(** X18. [GET /marcas] with the service answering answers, without
    repetition, exactly the non-empty brands of the stored vehicles, those
    of the vehicles that are not available included; when the scan throws it
    answers 500 with the message of the error; it never writes. *)
Theorem marcas_distintas (s : Store) :
  (∃ xs : list (option string),
     getMarcas (nominal s) = (inr (200, CTextos xs), nominal s)
     ∧ NoDup xs
     ∧ ∀ o, o ∈ xs ↔
         ∃ x k v, o = Some x ∧ x ≠ ""
                  ∧ veiculos s !! k = Some v ∧ marca v = Some x)
  ∧ ∀ e fs, getMarcas {| store := s; falhas := Some e :: fs |}
            = (inr (500, CErroConsulta (message e)),
               {| store := s; falhas := fs |}).
Proof. split; [apply marcas_spec | reflexivity]. Qed.

(** X19. [GET /modelos/:marca] with the service answering answers, without
    repetition, exactly the models of the stored vehicles of that brand,
    available or not, a vehicle stored without a model giving the element
    [undefined]; when the scan throws it answers 500. *)
Theorem modelos_da_marca (s : Store) (q_marca : string) :
  (∃ xs : list (option string),
     getModelos q_marca (nominal s) = (inr (200, CTextos xs), nominal s)
     ∧ NoDup xs
     ∧ ∀ o, o ∈ xs ↔
         ∃ k v, veiculos s !! k = Some v
                ∧ marca v = Some q_marca ∧ modelo v = o)
  ∧ ∀ e fs, getModelos q_marca {| store := s; falhas := Some e :: fs |}
            = (inr (500, CErroConsulta (message e)),
               {| store := s; falhas := fs |}).
Proof. split; [apply modelos_spec | reflexivity]. Qed.

(** X20. The menus cover the listing: with the service answering, the
    brand of every vehicle that a listing of available vehicles holds, when
    it is not empty, is among the brands of [GET /marcas], and the model of
    the vehicle is among the models that [GET /modelos/:marca] answers for
    that brand. *)
Theorem menus_cobrem_a_listagem (s : Store) (qm qd : option string)
  (k : string) (v : Veiculo) (x : string) :
  (k, v) ∈ disponiveisDe s qm qd →
  marca v = Some x → x ≠ "" →
  ∃ ms ds : list (option string),
    getMarcas (nominal s) = (inr (200, CTextos ms), nominal s)
    ∧ Some x ∈ ms
    ∧ getModelos x (nominal s) = (inr (200, CTextos ds), nominal s)
    ∧ modelo v ∈ ds.
Proof.
  intros Hin Hm Hx. apply disponiveisDe_elem in Hin as (Hv & _ & _).
  destruct (marcas_spec s) as (ms & Hms & _ & Hin_ms).
  destruct (modelos_spec s x) as (ds & Hds & _ & Hin_ds).
  exists ms, ds. split; [exact Hms|]. split.
  - apply Hin_ms. exists x, k, v. auto.
  - split; [exact Hds|]. apply Hin_ds. exists k, v. auto.
Qed.

(** X21. A registered client is listed until it is deleted: with the
    service answering, after a registration under a free identifier
    [GET /clientes] holds the client under that identifier, with the fields
    of the body, and after the deletion of a stored client that no active
    rental names, it holds nothing under the identifier. *)
Theorem cliente_listado_ate_excluir (s : Store) :
  (∀ (agora : N) (b : CorpoCliente),
     clientes s !! toString agora = None →
     ∃ cs, getClientes (nominal (apos (PostClientes agora b) [] s))
           = (inr (200, CClientes cs),
              nominal (apos (PostClientes agora b) [] s))
           ∧ (toString agora, clienteDe b) ∈ cs)
  ∧ (∀ (id : string) (c : Cliente),
       clientes s !! id = Some c →
       (∀ k l, locacoes s !! k = Some l →
               ¬ (clienteId l = id ∧ status l = ativa)) →
       ∃ cs, getClientes (nominal (apos (DeleteClientes id) [] s))
             = (inr (200, CClientes cs),
                nominal (apos (DeleteClientes id) [] s))
             ∧ ∀ c', (id, c') ∉ cs).
Proof.
  split.
  - intros agora b Hfresh. eexists. split; [reflexivity|].
    rewrite filter_tudo. apply elem_of_map_to_list.
    desdobra. rewrite Hfresh. simpl. apply lookup_insert_eq.
  - intros id c Hc Hnone. eexists. split; [reflexivity|].
    intros c'. rewrite filter_tudo, elem_of_map_to_list.
    assert (H : (temLocacoesAtivas id (map_to_list (locacoes s))).1 = false).
    { apply not_true_is_false. intros H.
      apply temLocacoesAtivas_true in H as (k & l & Hl & H).
      apply elem_of_map_to_list in Hl. exact (Hnone k l Hl H). }
    desdobra. rewrite Hc. simpl. rewrite filter_tudo, H. simpl.
    rewrite Hc. simpl. rewrite lookup_delete_eq. discriminate.
Qed.

(** ** [GET /veiculos/alugados] *)

Definition veiculoAlugado (placa : string) (v : Veiculo) : VeiculoAlugado :=
  {| va_marca := marca v; va_modelo := modelo v; va_ano := ano v;
     va_precoDiaria := precoDiaria v; va_urlImagem := urlImagem v;
     va_placa := placa |}.

Definition clienteAlugado (id : string) (c : Cliente) : ClienteAlugado :=
  {| ca_nome := nome c; ca_email := email c; ca_telefone := telefone c;
     ca_id := id |}.

(** The element pushed for the rental [l] stored under [rowKey]. *)
Definition alugado (rowKey : string) (l : Locacao)
  (veiculo : option Veiculo) (cliente : option Cliente) : Alugado :=
  {| a_id := rowKey; a_dataInicio := dataInicio l; a_dataFim := dataFim l;
     a_status := status l; a_valorTotal := valor l;
     a_veiculo := veiculoAlugado (placaVeiculo l) <$> veiculo;
     a_cliente := clienteAlugado (clienteId l) <$> cliente |}.

(** The body of the [for await] loop over the rentals: two lookups for
    each active rental, each in its own [try]. *)
Fixpoint juntar (iter : list (string * Locacao)) : M (list Alugado) :=
  match iter with
  | [] => ret []
  | (rowKey, l) :: resto =>
      if status_eqb (status l) ativa
      then
        await veiculo <-
          tryCatch (await v <- getEntity tabelaVeiculos (placaVeiculo l);
                    ret (Some v))
                   (λ _, ret None);
        await cliente <-
          tryCatch (await c <- getEntity tabelaClientes (clienteId l);
                    ret (Some c))
                   (λ _, ret None);
        await seguintes <- juntar resto;
        ret (alugado rowKey l veiculo cliente :: seguintes)
      else juntar resto
  end.

Definition getVeiculosAlugados : M (Z * CorpoConsulta) :=
  tryCatch
    (await iter <- listEntities tabelaLocacoes (λ _, true);
     await locacoesAtivas <- juntar iter;
     ret (200, CAlugados locacoesAtivas))
    (λ err, ret (500, CErroConsulta (message err))).

(** The active rentals of a scan, in its order. *)
Definition ativas (iter : list (string * Locacao)) : list (string * Locacao) :=
  filter (λ kl, status_eqb (status kl.2) ativa = true) iter.

Lemma status_eqb_ativa (st : Status) : status_eqb st ativa = true ↔ st = ativa.
Proof. destruct st; simpl; split; congruence. Qed.

Lemma ativas_cons k l iter :
  ativas ((k, l) :: iter)
  = if status_eqb (status l) ativa then (k, l) :: ativas iter
    else ativas iter.
Proof.
  unfold ativas. destruct (status_eqb (status l) ativa) eqn:E.
  - rewrite filter_cons_True by exact E. reflexivity.
  - rewrite filter_cons_False by (simpl; congruence). reflexivity.
Qed.

(** Whatever the lookups throw, the loop ends normally, writes nothing and
    pushes one element for each active rental. *)
Lemma juntar_falhas (iter : list (string * Locacao)) (s : Store)
  (fs : list (option RestError)) :
  ∃ (r : list Alugado) (fs' : list (option RestError)),
    juntar iter {| store := s; falhas := fs |}
    = (inr r, {| store := s; falhas := fs' |})
    ∧ Forall2 (λ a kl, a_id a = kl.1 ∧ a_status a = ativa
                       ∧ a_dataInicio a = dataInicio kl.2
                       ∧ a_dataFim a = dataFim kl.2
                       ∧ a_valorTotal a = valor kl.2)
        r (ativas iter).
Proof.
  revert fs. induction iter as [|[k l] iter IH]; intros fs.
  - exists [], fs. split; [reflexivity | constructor].
  - rewrite ativas_cons. simpl.
    destruct (status_eqb (status l) ativa) eqn:Hs; [|apply IH].
    apply status_eqb_ativa in Hs.
    assert (Hv : ∃ (veiculo : option Veiculo) fs1,
              tryCatch (await v <- getEntity tabelaVeiculos (placaVeiculo l);
                        ret (Some v)) (λ _, ret None)
                {| store := s; falhas := fs |}
              = (inr veiculo, {| store := s; falhas := fs1 |})).
    { desdobra.
      destruct fs as [|[e|] fs]; simpl;
        try destruct (veiculos s !! placaVeiculo l); simpl;
        eexists _, _; reflexivity. }
    destruct Hv as (veiculo & fs1 & Hv).
    assert (Hc : ∃ (cliente : option Cliente) fs2,
              tryCatch (await c <- getEntity tabelaClientes (clienteId l);
                        ret (Some c)) (λ _, ret None)
                {| store := s; falhas := fs1 |}
              = (inr cliente, {| store := s; falhas := fs2 |})).
    { desdobra.
      destruct fs1 as [|[e|] fs1]; simpl;
        try destruct (clientes s !! clienteId l); simpl;
        eexists _, _; reflexivity. }
    destruct Hc as (cliente & fs2 & Hc).
    destruct (IH fs2) as (r & fs' & Hr & Hall).
    exists (alugado k l veiculo cliente :: r), fs'. split.
    + unfold bind at 1. rewrite Hv. unfold bind at 1. rewrite Hc.
      unfold bind at 1. rewrite Hr. reflexivity.
    + constructor; [|exact Hall]. simpl. auto.
Qed.

(** With the service answering, each element holds the vehicle and the
    client stored now. *)
Lemma juntar_nominal (iter : list (string * Locacao)) (s : Store) :
  juntar iter (nominal s)
  = (inr ((λ kl, alugado kl.1 kl.2 (veiculos s !! placaVeiculo kl.2)
                   (clientes s !! clienteId kl.2)) <$> ativas iter),
     nominal s).
Proof.
  induction iter as [|[k l] iter IH]; [reflexivity|].
  rewrite ativas_cons. simpl.
  destruct (status_eqb (status l) ativa); [|exact IH].
  unfold bind at 1.
  replace (tryCatch (await v <- getEntity tabelaVeiculos (placaVeiculo l);
                     ret (Some v)) (λ _, ret None) (nominal s))
    with (inr (B := option Veiculo) (A := RestError)
            (veiculos s !! placaVeiculo l), nominal s)
    by (desdobra; destruct (veiculos s !! placaVeiculo l); reflexivity).
  unfold bind at 1.
  replace (tryCatch (await c <- getEntity tabelaClientes (clienteId l);
                     ret (Some c)) (λ _, ret None) (nominal s))
    with (inr (B := option Cliente) (A := RestError)
            (clientes s !! clienteId l), nominal s)
    by (desdobra; destruct (clientes s !! clienteId l); reflexivity).
  unfold bind at 1. rewrite IH. reflexivity.
Qed.

Lemma ativas_elem (s : Store) k l :
  (k, l) ∈ ativas (map_to_list (locacoes s))
  ↔ locacoes s !! k = Some l ∧ status l = ativa.
Proof.
  unfold ativas. rewrite list_elem_of_filter, elem_of_map_to_list. simpl.
  rewrite status_eqb_ativa. tauto.
Qed.

Lemma ativas_NoDup (s : Store) :
  NoDup ((ativas (map_to_list (locacoes s))).*1).
Proof.
  apply (sublist_NoDup _ ((map_to_list (locacoes s)).*1));
    [apply NoDup_fst_map_to_list|].
  apply fmap_sublist, sublist_filter.
Qed.

(** X22. The joined view tolerates failing lookups: when the scan of the
    rentals is answered, whatever the lookups of vehicles and clients throw
    afterwards, the handler answers 200 and writes nothing, with one element
    for each active rental and none for a cancelled one, in the order of the
    scan, each with the identifier, dates, status and value of its rental;
    it answers 500 only when the scan itself throws. *)
Theorem visao_tolera_falhas (s : Store) (fs : list (option RestError)) :
  (∃ (r : list Alugado) (fs' : list (option RestError)),
     getVeiculosAlugados {| store := s; falhas := None :: fs |}
     = (inr (200, CAlugados r), {| store := s; falhas := fs' |})
     ∧ a_id <$> r = (ativas (map_to_list (locacoes s))).*1
     ∧ Forall2 (λ a kl, a_status a = ativa
                        ∧ a_dataInicio a = dataInicio kl.2
                        ∧ a_dataFim a = dataFim kl.2
                        ∧ a_valorTotal a = valor kl.2)
         r (ativas (map_to_list (locacoes s))))
  ∧ ∀ e, getVeiculosAlugados {| store := s; falhas := Some e :: fs |}
         = (inr (500, CErroConsulta (message e)),
            {| store := s; falhas := fs |}).
Proof.
  split; [|reflexivity].
  destruct (juntar_falhas (map_to_list (locacoes s)) s fs)
    as (r & fs' & Hr & Hall).
  exists r, fs'. split.
  - unfold getVeiculosAlugados, tryCatch, listEntities.
    unfold bind at 1. unfold bind at 1. unfold chamada at 1.
    cbn [falhas store]. unfold bind at 1. unfold lerStore at 1.
    cbn [store]. unfold ret at 1. rewrite filter_tudo.
    unfold bind at 1. cbn [ler tabelaLocacoes]. rewrite Hr. reflexivity.
  - split.
    + apply list_eq_Forall2, Forall2_fmap.
      eapply Forall2_impl; [exact Hall|]. simpl. tauto.
    + eapply Forall2_impl; [exact Hall|]. simpl. tauto.
Qed.

Lemma visao_spec (s : Store) :
  ∃ r : list Alugado,
    getVeiculosAlugados (nominal s) = (inr (200, CAlugados r), nominal s)
    ∧ NoDup (a_id <$> r)
    ∧ ∀ a, a ∈ r ↔
        ∃ k l, locacoes s !! k = Some l ∧ status l = ativa
               ∧ a = {| a_id := k;
                        a_dataInicio := dataInicio l;
                        a_dataFim := dataFim l;
                        a_status := ativa;
                        a_valorTotal := valor l;
                        a_veiculo :=
                          veiculoAlugado (placaVeiculo l)
                            <$> veiculos s !! placaVeiculo l;
                        a_cliente :=
                          clienteAlugado (clienteId l)
                            <$> clientes s !! clienteId l |}.
Proof.
  eexists. split.
  - unfold getVeiculosAlugados, tryCatch, listEntities.
    unfold bind at 1. unfold bind at 1. unfold chamada at 1.
    cbn [falhas store nominal]. unfold bind at 1. unfold lerStore at 1.
    cbn [store]. unfold ret at 1. rewrite filter_tudo.
    unfold bind at 1. cbn [ler tabelaLocacoes].
    fold (nominal s). rewrite juntar_nominal. reflexivity.
  - split.
    + rewrite <- list_fmap_compose.
      change (a_id ∘ _) with (@fst string Locacao). apply ativas_NoDup.
    + intros a. rewrite list_elem_of_fmap. split.
      * intros ([k l] & -> & Hin). apply ativas_elem in Hin as [Hl Hs].
        exists k, l. split; [exact Hl|]. split; [exact Hs|].
        unfold alugado. simpl. rewrite Hs. reflexivity.
      * intros (k & l & Hl & Hs & ->). exists (k, l). split.
        -- unfold alugado. simpl. rewrite Hs. reflexivity.
        -- apply ativas_elem. auto.
Qed.

(** X23. With the service answering, the joined view answers exactly one
    element for each stored rental with status [ativa], with no identifier
    twice; the element holds the vehicle stored now under the plate of the
    rental (its brand, model, year, daily rate, image URL and plate, not the
    brand and model copied into the rental) and the client stored now under
    its [clienteId], or [null] for the one that is not stored. *)
Theorem visao_junta_o_estado_atual (s : Store) :
  ∃ r : list Alugado,
    getVeiculosAlugados (nominal s) = (inr (200, CAlugados r), nominal s)
    ∧ NoDup (a_id <$> r)
    ∧ (∀ k l, locacoes s !! k = Some l → status l = ativa →
         ∃ a, a ∈ r ∧ a_id a = k)
    ∧ ∀ a, a ∈ r →
        ∃ l, locacoes s !! a_id a = Some l ∧ status l = ativa
             ∧ a_status a = ativa
             ∧ a_dataInicio a = dataInicio l ∧ a_dataFim a = dataFim l
             ∧ a_valorTotal a = valor l
             ∧ match veiculos s !! placaVeiculo l with
               | Some v =>
                   a_veiculo a
                   = Some {| va_marca := marca v; va_modelo := modelo v;
                             va_ano := ano v;
                             va_precoDiaria := precoDiaria v;
                             va_urlImagem := urlImagem v;
                             va_placa := placaVeiculo l |}
               | None => a_veiculo a = None
               end
             ∧ match clientes s !! clienteId l with
               | Some c =>
                   a_cliente a
                   = Some {| ca_nome := nome c; ca_email := email c;
                             ca_telefone := telefone c;
                             ca_id := clienteId l |}
               | None => a_cliente a = None
               end.
Proof.
  destruct (visao_spec s) as (r & Hr & Hnd & Hin).
  exists r. split; [exact Hr|]. split; [exact Hnd|]. split.
  - intros k l Hl Hs. eexists. split; [apply Hin; eauto|]. reflexivity.
  - intros a Ha. apply Hin in Ha as (k & l & Hl & Hs & ->).
    exists l. simpl. split; [exact Hl|]. split; [exact Hs|].
    repeat (split; [reflexivity|]).
    destruct (veiculos s !! placaVeiculo l), (clientes s !! clienteId l);
      split; reflexivity.
Qed.

(** X24. The joined view follows the life cycle of a rental: with the
    service answering, after the creation of a rental for a stored vehicle,
    under a free identifier, the view holds an element under that identifier
    with the attributes of the vehicle; after the cancellation of a stored
    rental, the view holds no element under its identifier. *)
Theorem visao_segue_o_ciclo (s : Store) :
  (∀ (agora : N) (b : CorpoLocacao) (v : Veiculo),
     truthy (cl_placaVeiculo b) = true →
     truthy (cl_clienteId b) = true →
     veiculos s !! texto (cl_placaVeiculo b) = Some v →
     locacoes s !! toString agora = None →
     ∃ (r : list Alugado) (a : Alugado),
       getVeiculosAlugados (nominal (apos (PostLocacoes agora b) [] s))
       = (inr (200, CAlugados r),
          nominal (apos (PostLocacoes agora b) [] s))
       ∧ a ∈ r ∧ a_id a = toString agora
       ∧ a_veiculo a
         = Some (veiculoAlugado (texto (cl_placaVeiculo b)) v))
  ∧ (∀ (id : string) (l : Locacao),
       locacoes s !! id = Some l →
       ∃ r : list Alugado,
         getVeiculosAlugados (nominal (apos (PostCancelarLocacao id) [] s))
         = (inr (200, CAlugados r),
            nominal (apos (PostCancelarLocacao id) [] s))
         ∧ ∀ a, a ∈ r → a_id a ≠ id).
Proof.
  split.
  - intros agora b v Hp Hc Hv Hfresh.
    destruct (visao_spec (apos (PostLocacoes agora b) [] s))
      as (r & Hr & _ & Hin).
    exists r. eexists. split; [exact Hr|]. split; [|split].
    + apply Hin. exists (toString agora), (entidade b (Some v)).
      rewrite locacao_nominal, Hp, Hc. simpl. rewrite Hfresh, Hv.
      cbn [locacoes]. rewrite lookup_insert_eq.
      split; [reflexivity|]. split; reflexivity.
    + reflexivity.
    + cbn [a_veiculo veiculos]. rewrite lookup_insert_eq. reflexivity.
  - intros id l Hl.
    destruct (visao_spec (apos (PostCancelarLocacao id) [] s))
      as (r & Hr & _ & Hin).
    exists r. split; [exact Hr|].
    intros a Ha Hid. apply Hin in Ha as (k & l' & Hl' & Hs & ->).
    simpl in Hid. subst k.
    rewrite cancelar_apos, cancelar_nominal, Hl in Hl'.
    cbn [snd store nominal locacoes] in Hl'.
    rewrite lookup_insert_eq in Hl'. simplify_eq.
Qed.

(** * Initialisation of the Azure resources

    The blob container and the tables on the side of the service, the flag
    [azureInitialized] on the side of the process, and, as for the tables
    above, the schedule of the calls that throw. The environment is taken
    to name valid URLs, so that building a client, which calls no service,
    does not throw. *)

Record Servico := { container : bool; tabelasCriadas : gset string }.

Record Processo := {
  servico : Servico;
  azureInitialized : bool;
  pendentes : list (option RestError)
}.

Definition MI (A : Type) : Type := Processo → (RestError + A) * Processo.

Definition retI {A} (a : A) : MI A := λ w, (inr a, w).

Definition bindI {A B} (m : MI A) (k : A → MI B) : MI B :=
  λ w, match m w with
       | (inr a, w') => k a w'
       | (inl e, w') => (inl e, w')
       end.

Definition throwI {A} (e : RestError) : MI A := λ w, (inl e, w).

Definition tryCatchI {A} (m : MI A) (h : RestError → MI A) : MI A :=
  λ w, match m w with
       | (inl e, w') => h e w'
       | r => r
       end.

Notation "'aguarda' x <- m ; k" := (bindI m (λ x, k))
  (at level 10, x name, m at level 100, k at level 200, only parsing).

Definition chamadaI : MI unit :=
  λ w, match pendentes w with
       | Some e :: fs =>
           (inl e, {| servico := servico w;
                      azureInitialized := azureInitialized w;
                      pendentes := fs |})
       | None :: fs =>
           (inr (), {| servico := servico w;
                       azureInitialized := azureInitialized w;
                       pendentes := fs |})
       | [] => (inr (), w)
       end.

Definition lerServico : MI Servico := λ w, (inr (servico w), w).

Definition gravarServico (s : Servico) : MI unit :=
  λ w, (inr (), {| servico := s; azureInitialized := azureInitialized w;
                   pendentes := pendentes w |}).

(** [containerClient.exists()] *)
Definition containerExists : MI bool :=
  aguarda _ <- chamadaI;
  aguarda s <- lerServico;
  retI (container s).

(** [containerClient.create()]: throws 409 when the container exists. *)
Definition containerCreate : MI unit :=
  aguarda _ <- chamadaI;
  aguarda s <- lerServico;
  if container s then throwI jaExiste
  else gravarServico {| container := true;
                        tabelasCriadas := tabelasCriadas s |}.

(** [serviceClient.createTable(t)]: throws 409 when the table exists. *)
Definition createTable (t : string) : MI unit :=
  aguarda _ <- chamadaI;
  aguarda s <- lerServico;
  if decide (t ∈ tabelasCriadas s) then throwI jaExiste
  else gravarServico {| container := container s;
                        tabelasCriadas := {[t]} ∪ tabelasCriadas s |}.

(** [criarContainer] *)
Definition criarContainer : MI unit :=
  aguarda exists_ <- containerExists;
  if negb exists_ then containerCreate else retI ().

(** [criarTabelas]: the loop over the three table names, which logs
    whatever [createTable] throws, the 409 of an existing table as its other
    errors, and goes on. *)
Fixpoint criarTabelas (tabelas : list string) : MI unit :=
  match tabelas with
  | [] => retI ()
  | t :: resto =>
      aguarda _ <- tryCatchI (createTable t) (λ err, retI ());
      criarTabelas resto
  end.

(** [getAzureClients], which the handlers of the first variant await at
    each request. *)
Definition getAzureClients (tabelas : list string) : MI unit :=
  aguarda _ <- criarContainer;
  criarTabelas tabelas.

Definition lerFlag : MI bool := λ w, (inr (azureInitialized w), w).

Definition gravarFlag (b : bool) : MI unit :=
  λ w, (inr (), {| servico := servico w; azureInitialized := b;
                   pendentes := pendentes w |}).

(** [inicializarAzure]; its [catch] logs and throws the error again. *)
Definition inicializarAzure (tabelas : list string) : MI unit :=
  aguarda ini <- lerFlag;
  if ini then retI ()
  else
    tryCatchI
      (aguarda _ <- criarContainer;
       aguarda _ <- criarTabelas tabelas;
       gravarFlag true)
      (λ err, throwI err).

(** A route: an [async] handler with its own [try]/[catch], which answers
    and never throws. *)
Definition Rota (R : Type) : Type := Processo → R * Processo.

(** What a request gets: the answer of the route, or the 500 of the
    middleware with [detalhes]. *)
Inductive Atendimento (R : Type) :=
| Atendido (r : R)
| Indisponivel (detalhes : string).
Arguments Atendido {R} _.
Arguments Indisponivel {R} _.

(** The middleware that every request of the second variant goes through:
    [next()] is called after the initialisation has returned. *)
Definition middleware {R} (tabelas : list string) (rota : Rota R)
  : Rota (Atendimento R) :=
  λ w, match
         (aguarda ini <- lerFlag;
          if negb ini then inicializarAzure tabelas else retI ()) w
       with
       | (inr _, w') => let (r, w'') := rota w' in (Atendido r, w'')
       | (inl err, w') => (Indisponivel (message err), w')
       end.

(** [GET /health]; [timestamp] is [new Date().toISOString()]. *)
Inductive Saude :=
| Healthy (azureInitialized : bool) (timestamp : string)
| Unhealthy (error : string).

Definition health (tabelas : list string) (timestamp : string) : Rota Saude :=
  λ w, match
         (aguarda ini <- lerFlag;
          aguarda _ <- (if negb ini then inicializarAzure tabelas
                        else retI ());
          aguarda ini' <- lerFlag;
          retI (Healthy ini' timestamp)) w
       with
       | (inr r, w') => (r, w')
       | (inl err, w') => (Unhealthy (message err), w')
       end.

Ltac desdobraI :=
  unfold middleware, health, inicializarAzure, getAzureClients,
    criarContainer, containerExists, containerCreate, createTable,
    lerFlag, gravarFlag, lerServico, gravarServico, chamadaI,
    tryCatchI, bindI, retI, throwI;
  simpl.

(** One turn of the loop of [criarTabelas]. *)
Lemma createTable_tolerado (t : string) (w : Processo) :
  ∃ w', tryCatchI (createTable t) (λ err, retI ()) w = (inr (), w')
        ∧ azureInitialized w' = azureInitialized w
        ∧ container (servico w') = container (servico w)
        ∧ (tabelasCriadas (servico w') = tabelasCriadas (servico w)
           ∨ tabelasCriadas (servico w')
             = {[t]} ∪ tabelasCriadas (servico w))
        ∧ (pendentes w = [] →
           pendentes w' = []
           ∧ tabelasCriadas (servico w')
             = {[t]} ∪ tabelasCriadas (servico w)).
Proof.
  destruct w as [[c ts] ini fs]. desdobraI.
  destruct fs as [|[e|] fs]; simpl;
    try destruct (decide (t ∈ ts)) as [Hin|Hnin]; simpl;
    eexists; (split; [reflexivity|]); simpl;
    (split; [reflexivity|]); (split; [reflexivity|]);
    (split; [auto|]); intros Hnil; try discriminate;
    (split; [reflexivity | set_solver]).
Qed.

Lemma criarTabelas_spec (tabelas : list string) (w : Processo) :
  ∃ w' : Processo,
    criarTabelas tabelas w = (inr (), w')
    ∧ azureInitialized w' = azureInitialized w
    ∧ container (servico w') = container (servico w)
    ∧ tabelasCriadas (servico w) ⊆ tabelasCriadas (servico w')
    ∧ tabelasCriadas (servico w')
      ⊆ list_to_set tabelas ∪ tabelasCriadas (servico w)
    ∧ (pendentes w = [] →
       tabelasCriadas (servico w')
       = list_to_set tabelas ∪ tabelasCriadas (servico w)).
Proof.
  revert w. induction tabelas as [|t tabelas IH]; intros w.
  - exists w. split; [reflexivity|]. repeat split; auto; set_solver.
  - destruct (createTable_tolerado t w) as (w1 & H1 & Hf1 & Hc1 & Ht1 & Hn1).
    destruct (IH w1) as (w2 & H2 & Hf2 & Hc2 & Hs2 & Hu2 & Hn2).
    exists w2. split.
    + simpl. unfold bindI at 1. rewrite H1. exact H2.
    + split; [congruence|]. split; [congruence|].
      split; [destruct Ht1 as [E|E]; rewrite E in *; set_solver|].
      split; [destruct Ht1 as [E|E]; rewrite E in *; set_solver|].
      intros Hnil. destruct (Hn1 Hnil) as [Hp1 E1].
      rewrite (Hn2 Hp1), E1. set_solver.
Qed.

Lemma createTable_falha (t : string) (e : RestError) (srv : Servico)
  (ini : bool) (fs : list (option RestError)) :
  tryCatchI (createTable t) (λ _, retI ())
    {| servico := srv; azureInitialized := ini; pendentes := Some e :: fs |}
  = (inr (), {| servico := srv; azureInitialized := ini; pendentes := fs |}).
Proof. reflexivity. Qed.

Lemma criarTabelas_todas_falham (tabelas : list string)
  (es : list RestError) (srv : Servico) (ini : bool)
  (fs : list (option RestError)) :
  length es = length tabelas →
  criarTabelas tabelas
    {| servico := srv; azureInitialized := ini;
       pendentes := (Some <$> es) ++ fs |}
  = (inr (), {| servico := srv; azureInitialized := ini; pendentes := fs |}).
Proof.
  revert es. induction tabelas as [|t tabelas IH]; intros [|e es] Hlen;
    try discriminate; [reflexivity|].
  cbn [criarTabelas]. rewrite fmap_cons, <- app_comm_cons.
  unfold bindI at 1. rewrite createTable_falha.
  apply IH. simpl in Hlen. congruence.
Qed.

(** X25. [criarTabelas] never throws, whatever the service answers: every
    error of [createTable] is swallowed. It leaves the container and the
    flag as they are, deletes no table and creates none but the tables
    named; with the service answering, the tables named all exist
    afterwards, and with every [createTable] throwing it returns having
    created nothing. *)
Theorem criarTabelas_nunca_falha (tabelas : list string) (w : Processo) :
  (∃ w' : Processo,
     criarTabelas tabelas w = (inr (), w')
     ∧ azureInitialized w' = azureInitialized w
     ∧ container (servico w') = container (servico w)
     ∧ tabelasCriadas (servico w) ⊆ tabelasCriadas (servico w')
     ∧ tabelasCriadas (servico w')
       ⊆ list_to_set tabelas ∪ tabelasCriadas (servico w)
     ∧ (pendentes w = [] →
        tabelasCriadas (servico w')
        = list_to_set tabelas ∪ tabelasCriadas (servico w)))
  ∧ ∀ es fs,
      length es = length tabelas →
      pendentes w = (Some <$> es) ++ fs →
      criarTabelas tabelas w
      = (inr (), {| servico := servico w;
                    azureInitialized := azureInitialized w;
                    pendentes := fs |}).
Proof.
  split; [apply criarTabelas_spec|].
  intros es fs Hlen Hp. destruct w as [srv ini ps]. simpl in *. subst ps.
  apply criarTabelas_todas_falham, Hlen.
Qed.

Lemma criarContainer_spec (w : Processo) :
  match criarContainer w with
  | (inl e, w') =>
      servico w' = servico w ∧ azureInitialized w' = azureInitialized w
  | (inr _, w') =>
      container (servico w') = true
      ∧ tabelasCriadas (servico w') = tabelasCriadas (servico w)
      ∧ azureInitialized w' = azureInitialized w
      ∧ (pendentes w = [] → pendentes w' = [])
  end.
Proof.
  destruct w as [[c ts] ini fs]. desdobraI. destruct c;
    repeat first
      [ progress simpl
      | match goal with
        | |- context [match ?l with [] => _ | _ :: _ => _ end] =>
            destruct l as [|[?|] ?]
        end ];
    repeat split; auto; discriminate.
Qed.

Lemma inicializacao_spec (tabelas : list string) (w : Processo) :
  (azureInitialized w = true → inicializarAzure tabelas w = (inr (), w))
  ∧ (azureInitialized w = false →
     match inicializarAzure tabelas w with
     | (inl e, w') => azureInitialized w' = false ∧ servico w' = servico w
     | (inr _, w') =>
         azureInitialized w' = true
         ∧ container (servico w') = true
         ∧ tabelasCriadas (servico w) ⊆ tabelasCriadas (servico w')
     end).
Proof.
  split.
  - intros H. unfold inicializarAzure, bindI, lerFlag. rewrite H. reflexivity.
  - intros H. unfold inicializarAzure, lerFlag. unfold bindI at 1.
    rewrite H. unfold tryCatchI, throwI. unfold bindI at 1.
    pose proof (criarContainer_spec w) as Hc.
    destruct (criarContainer w) as [[e|[]] w1].
    + destruct Hc as [Hs Hf]. split; congruence.
    + destruct Hc as (Hc & Ht & Hf & _).
      destruct (criarTabelas_spec tabelas w1)
        as (w2 & H2 & Hf2 & Hc2 & Hs2 & _).
      unfold bindI at 1. rewrite H2. unfold gravarFlag. simpl.
      split; [reflexivity|]. split; [congruence|]. rewrite <- Ht. exact Hs2.
Qed.

(** X26. [inicializarAzure] runs once: with the flag set it returns at
    once, calling no service and changing nothing. With the flag not set,
    either it throws, and then the flag is still not set and the service is
    as it was, or it returns, and then the flag is set, the container
    exists and no table has gone. Once it has returned, running it again
    changes nothing. *)
Theorem inicializacao_uma_vez (tabelas : list string) (w : Processo) :
  (azureInitialized w = true → inicializarAzure tabelas w = (inr (), w))
  ∧ (azureInitialized w = false →
     match inicializarAzure tabelas w with
     | (inl e, w') => azureInitialized w' = false ∧ servico w' = servico w
     | (inr _, w') =>
         azureInitialized w' = true
         ∧ container (servico w') = true
         ∧ tabelasCriadas (servico w) ⊆ tabelasCriadas (servico w')
     end)
  ∧ ∀ w', inicializarAzure tabelas w = (inr (), w') →
          inicializarAzure tabelas w' = (inr (), w').
Proof.
  destruct (inicializacao_spec tabelas w) as [Hon Hoff].
  split; [exact Hon|]. split; [exact Hoff|].
  intros w' Hrun.
  assert (Hf : azureInitialized w' = true).
  { destruct (azureInitialized w) eqn:H.
    - rewrite (Hon eq_refl) in Hrun. congruence.
    - specialize (Hoff eq_refl). rewrite Hrun in Hoff. apply Hoff. }
  apply (inicializacao_spec tabelas w'), Hf.
Qed.

(** X27. A table that could not be created does not stop the
    initialisation: when the container exists and every [createTable]
    throws, [inicializarAzure] returns all the same and sets the flag, with
    no table created; so it is not run again, and the tables stay
    missing. *)
Theorem inicializacao_sem_tabelas (tabelas : list string)
  (es : list RestError) (srv : Servico) (fs : list (option RestError)) :
  container srv = true →
  length es = length tabelas →
  ∃ w' : Processo,
    inicializarAzure tabelas
      {| servico := srv; azureInitialized := false;
         pendentes := None :: (Some <$> es) ++ fs |}
    = (inr (), w')
    ∧ w' = {| servico := srv; azureInitialized := true; pendentes := fs |}
    ∧ inicializarAzure tabelas w' = (inr (), w').
Proof.
  intros Hc Hlen. eexists. split; [|split; [reflexivity|reflexivity]].
  assert (Hcc : criarContainer
                  {| servico := srv; azureInitialized := false;
                     pendentes := None :: (Some <$> es) ++ fs |}
                = (inr (), {| servico := srv; azureInitialized := false;
                              pendentes := (Some <$> es) ++ fs |})).
  { desdobraI. rewrite Hc. reflexivity. }
  unfold inicializarAzure, lerFlag. unfold bindI at 1. simpl.
  unfold tryCatchI. unfold bindI at 1. rewrite Hcc.
  unfold bindI at 1.
  rewrite (criarTabelas_todas_falham tabelas es srv false fs Hlen).
  reflexivity.
Qed.

(** X28. What the middleware does to a route. With the flag set it runs
    the route at once. With the flag not set it first initialises: when that
    throws, the request is answered by the 500 of the middleware with the
    message of the error, the route is not run and the flag stays unset, so
    that the next request tries again; when it returns, the route runs with
    the flag set. In particular [GET /health] behind the middleware never
    answers [unhealthy]: it answers [healthy] with the flag true, or the
    request gets the 500 of the middleware. *)
Theorem middleware_e_health (tabelas : list string) (w : Processo) :
  (∀ R (rota : Rota R),
     (azureInitialized w = true →
      middleware tabelas rota w = (Atendido (rota w).1, (rota w).2))
     ∧ (∀ e w', azureInitialized w = false →
          inicializarAzure tabelas w = (inl e, w') →
          middleware tabelas rota w = (Indisponivel (message e), w')
          ∧ azureInitialized w' = false)
     ∧ (∀ w', azureInitialized w = false →
          inicializarAzure tabelas w = (inr (), w') →
          middleware tabelas rota w = (Atendido (rota w').1, (rota w').2)
          ∧ azureInitialized w' = true))
  ∧ ∀ timestamp,
      (∃ w', middleware tabelas (health tabelas timestamp) w
             = (Atendido (Healthy true timestamp), w')
             ∧ azureInitialized w' = true)
      ∨ (∃ d w', middleware tabelas (health tabelas timestamp) w
                 = (Indisponivel d, w')
                 ∧ azureInitialized w' = false).
Proof.
  assert (Hh : ∀ timestamp w1, azureInitialized w1 = true →
            health tabelas timestamp w1 = (Healthy true timestamp, w1)).
  { intros timestamp w1 H1. unfold health, lerFlag, bindI, retI.
    rewrite H1. simpl. rewrite H1. reflexivity. }
  pose proof (inicializacao_spec tabelas w) as [Hon Hoff].
  split.
  - intros R rota. split; [|split].
    + intros H. unfold middleware, lerFlag, bindI, retI. rewrite H. simpl.
      destruct (rota w). reflexivity.
    + intros e w' H Hini. specialize (Hoff H). rewrite Hini in Hoff.
      split; [|apply Hoff].
      unfold middleware, lerFlag. unfold bindI at 1. rewrite H. simpl.
      rewrite Hini. reflexivity.
    + intros w' H Hini. specialize (Hoff H). rewrite Hini in Hoff.
      split; [|apply Hoff].
      unfold middleware, lerFlag. unfold bindI at 1. rewrite H. simpl.
      rewrite Hini. destruct (rota w'). reflexivity.
  - intros timestamp. destruct (azureInitialized w) eqn:H.
    + left. exists w. split; [|exact H].
      unfold middleware, lerFlag, bindI, retI. rewrite H. simpl.
      rewrite (Hh timestamp w H). reflexivity.
    + specialize (Hoff eq_refl).
      destruct (inicializarAzure tabelas w) as [[e|[]] w'] eqn:Hini.
      * right. exists (message e), w'. split; [|apply Hoff].
        unfold middleware, lerFlag. unfold bindI at 1. rewrite H. simpl.
        rewrite Hini. reflexivity.
      * left. exists w'. destruct Hoff as (Hf & _). split; [|exact Hf].
        unfold middleware, lerFlag. unfold bindI at 1. rewrite H. simpl.
        rewrite Hini, (Hh timestamp w' Hf). reflexivity.
Qed.

Lemma criarTabelas_existentes (tabelas : list string) (w : Processo) :
  pendentes w = [] →
  list_to_set tabelas ⊆ tabelasCriadas (servico w) →
  criarTabelas tabelas w = (inr (), w).
Proof.
  intros Hnil. induction tabelas as [|t tabelas IH]; intros Hsub;
    [reflexivity|].
  simpl. unfold bindI at 1.
  assert (Ht : tryCatchI (createTable t) (λ _, retI ()) w = (inr (), w)).
  { destruct w as [[c ts] ini fs]. simpl in *. subst fs. desdobraI.
    destruct (decide (t ∈ ts)) as [Hin|Hnin]; [reflexivity|].
    exfalso. apply Hnin. set_solver. }
  rewrite Ht. apply IH. set_solver.
Qed.

(** X29. [getAzureClients], which the first variant awaits at each
    request: an error of a container call, the check or the creation, is
    thrown on to the handler, with nothing created; with the service
    answering it returns with the container and the tables named in place,
    and awaiting it again changes nothing. *)
Theorem getAzureClients_repetido (tabelas : list string) (srv : Servico)
  (ini : bool) :
  (∀ e fs,
     getAzureClients tabelas
       {| servico := srv; azureInitialized := ini;
          pendentes := Some e :: fs |}
     = (inl e, {| servico := srv; azureInitialized := ini;
                  pendentes := fs |}))
  ∧ (∀ e fs,
       container srv = false →
       getAzureClients tabelas
         {| servico := srv; azureInitialized := ini;
            pendentes := None :: Some e :: fs |}
       = (inl e, {| servico := srv; azureInitialized := ini;
                    pendentes := fs |}))
  ∧ ∃ w1 : Processo,
      getAzureClients tabelas
        {| servico := srv; azureInitialized := ini; pendentes := [] |}
      = (inr (), w1)
      ∧ container (servico w1) = true
      ∧ tabelasCriadas (servico w1)
        = list_to_set tabelas ∪ tabelasCriadas srv
      ∧ getAzureClients tabelas w1 = (inr (), w1).
Proof.
  split; [reflexivity|].
  split; [intros e fs Hc; desdobraI; rewrite Hc; reflexivity|].
  set (w := {| servico := srv; azureInitialized := ini; pendentes := [] |}).
  pose proof (criarContainer_spec w) as Hc.
  assert (Hok : ∃ w0, criarContainer w = (inr (), w0)).
  { subst w. destruct srv as [c ts]. desdobraI.
    destruct c; simpl; eexists; reflexivity. }
  destruct Hok as (w0 & Hw0). rewrite Hw0 in Hc.
  destruct Hc as (Hcont & Htab & Hflag & Hp). specialize (Hp eq_refl).
  destruct (criarTabelas_spec tabelas w0)
    as (w1 & H1 & Hf1 & Hc1 & Hs1 & Hu1 & Hn1).
  specialize (Hn1 Hp).
  assert (Hp1 : pendentes w1 = []).
  { clear -H1 Hp. revert w0 w1 H1 Hp.
    induction tabelas as [|t tabelas IH]; intros w0 w1 H1 Hp.
    - simpl in H1. unfold retI in H1. congruence.
    - simpl in H1. unfold bindI at 1 in H1.
      destruct (createTable_tolerado t w0) as (wa & Ha & _ & _ & _ & Hna).
      rewrite Ha in H1. destruct (Hna Hp) as [Hpa _].
      exact (IH wa w1 H1 Hpa). }
  exists w1. split; [|split; [|split]].
  - unfold getAzureClients. unfold bindI at 1. rewrite Hw0. exact H1.
  - congruence.
  - rewrite Hn1, Htab. reflexivity.
  - unfold getAzureClients. unfold bindI at 1.
    assert (Hcc : criarContainer w1 = (inr (), w1)).
    { assert (Hct : container (servico w1) = true) by congruence.
      destruct w1 as [[c ts] ini1 fs1]. simpl in Hp1, Hct. subst fs1 c.
      reflexivity. }
    rewrite Hcc. apply criarTabelas_existentes; [exact Hp1|].
    rewrite Hn1. set_solver.
Qed.

End Locadora.

(** * A worked scenario

    The scenario of the specification, with numbers carried as integers:
    the vehicle ABC123 is registered available, rented, rented a second
    time, and the first rental is cancelled. *)

Definition corolla : @CorpoVeiculo Z :=
  {| cv_marca := Some "Toyota"; cv_modelo := Some "Corolla"; cv_ano := 2020;
     cv_placa := "ABC123"; cv_precoDiaria := 150;
     cv_disponivel := Texto "true"; cv_arquivo := None |}.

(** A vehicle registered with an empty brand. *)
Definition semMarca : @CorpoVeiculo Z :=
  {| cv_marca := Some ""; cv_modelo := Some "Uno"; cv_ano := 2012;
     cv_placa := "XYZ000"; cv_precoDiaria := 90;
     cv_disponivel := Texto "true"; cv_arquivo := None |}.

Definition pedido : @CorpoLocacao Z :=
  {| cl_placaVeiculo := Some "ABC123"; cl_clienteId := Some "C1";
     cl_dataInicio := Some "2024-01-01"; cl_dataFim := Some "2024-01-05";
     cl_valor := 600 |}.

Definition pedidoSemMarca : @CorpoLocacao Z :=
  {| cl_placaVeiculo := Some "XYZ000"; cl_clienteId := Some "C1";
     cl_dataInicio := Some "2024-01-01"; cl_dataFim := Some "2024-01-05";
     cl_valor := 360 |}.

Definition pedidoOrfao : @CorpoLocacao Z :=
  {| cl_placaVeiculo := Some "ZZZ999"; cl_clienteId := Some "C1";
     cl_dataInicio := Some "2024-01-01"; cl_dataFim := Some "2024-01-05";
     cl_valor := 600 |}.

(** A request with both required fields present, the plate empty. *)
Definition pedidoPlacaVazia : @CorpoLocacao Z :=
  {| cl_placaVeiculo := Some ""; cl_clienteId := Some "C1";
     cl_dataInicio := Some "2024-01-01"; cl_dataFim := Some "2024-01-05";
     cl_valor := 600 |}.

Definition maria : CorpoCliente :=
  {| cc_nome := Some "Maria"; cc_email := Some "maria@example.com";
     cc_telefone := None |}.

Definition t0 : N := 1700000000000.
Definition t1 : N := 1700000000001.
Definition t2 : N := 1700000000002.

Definition s_frota : @Store Z := apos (PostVeiculos corolla) [] vazio.
Definition s_alugado : @Store Z := apos (PostLocacoes t0 pedido) [] s_frota.
Definition s_duplo : @Store Z := apos (PostLocacoes t1 pedido) [] s_alugado.
Definition s_cancelado : @Store Z :=
  apos (PostCancelarLocacao "1700000000000") [] s_duplo.
Definition s_devolvido : @Store Z :=
  apos (PostCancelarLocacao "1700000000000") [] s_alugado.
Definition s_semMarca : @Store Z := apos (PostVeiculos semMarca) [] vazio.
Definition s_cliente : @Store Z := apos (PostClientes t2 maria) [] s_alugado.

Definition v_corolla (d : bool) : @Veiculo Z :=
  {| marca := Some "Toyota"; modelo := Some "Corolla"; ano := 2020;
     urlImagem := ""; precoDiaria := 150; disponivel := d |}.

Definition l_pedido (st : Status) : @Locacao Z :=
  {| placaVeiculo := "ABC123"; l_marca := "Toyota"; l_modelo := "Corolla";
     clienteId := "C1"; dataInicio := Some "2024-01-01";
     dataFim := Some "2024-01-05"; valor := 600; status := st |}.

(** The scenario of the specification runs as it says. *)
Example cenario_lista :
  (executar (GetVeiculosDisponiveis None None) (nominal s_frota)).1
  = inr (json (CVeiculos [("ABC123", v_corolla true)]))
  ∧ (executar (GetVeiculosDisponiveis None None) (nominal s_alugado)).1
    = inr (json (CVeiculos []))
  ∧ (executar (GetVeiculosDisponiveis None None) (nominal s_devolvido)).1
    = inr (json (CVeiculos [("ABC123", v_corolla true)])).
Proof. repeat split; vm_compute; reflexivity. Qed.

(** C1 fails as the specification words it: the vehicle XYZ000 is stored
    with the empty string as its brand, the creation of a rental for it answers
    success, and the rental stored holds ["---"], not the brand of the
    vehicle. *)
Lemma locacao_sem_marca_contraexemplo :
  ∃ (v : @Veiculo Z) (l : @Locacao Z) (s' : Store),
    veiculos s_semMarca !! "XYZ000" = Some v
    ∧ marca v = Some ""
    ∧ executar (PostLocacoes t0 pedidoSemMarca) (nominal s_semMarca)
      = (inr (json (CSucesso true None)), nominal s')
    ∧ locacoes s' !! "1700000000000" = Some l
    ∧ status l = ativa
    ∧ l_marca l = "---"
    ∧ Some (l_marca l) ≠ marca v.
Proof.
  eexists _, _, _. split; [vm_compute; reflexivity|].
  split; [reflexivity|].
  split; [vm_compute; reflexivity|].
  split; [vm_compute; reflexivity|].
  split; [reflexivity|]. split; [reflexivity|]. discriminate.
Qed.

(** The lookup of the vehicle is a soft failure whatever it throws: when
    the lookup of the stored vehicle ABC123 throws, the [catch] takes the
    vehicle for missing, so the creation answers success, the rental holds
    ["---"] and the vehicle stays available. *)
Example consulta_falha_tolerada :
  ∃ (l : @Locacao Z) (s' : Store),
    veiculos s_frota !! "ABC123" = Some (v_corolla true)
    ∧ executar (PostLocacoes t0 pedido)
        {| store := s_frota;
           falhas := [Some {| statusCode := 503; message := "ServerBusy" |}] |}
      = (inr (json (CSucesso true None)), nominal s')
    ∧ locacoes s' !! "1700000000000" = Some l
    ∧ l_marca l = "---"
    ∧ veiculos s' !! "ABC123" = Some (v_corolla true).
Proof.
  eexists _, _. split; [vm_compute; reflexivity|].
  split; [vm_compute; reflexivity|].
  split; [vm_compute; reflexivity|].
  split; [reflexivity|]. vm_compute; reflexivity.
Qed.

Lemma locacao_gravada_antes_da_baixa_witness :
  truthy (cl_placaVeiculo pedido) = true
  ∧ truthy (cl_clienteId pedido) = true
  ∧ veiculos s_frota !! texto (cl_placaVeiculo pedido) = Some (v_corolla true)
  ∧ locacoes s_frota !! toString t0 = None
  ∧ (executar (PostLocacoes t0 pedido) (nominal s_frota)).1
    = inr (json (CSucesso true None))
  ∧ ∀ e : RestError,
      locacoes
        (executar (PostLocacoes t0 pedido)
           {| store := s_frota; falhas := [None; None; Some e] |}).2.(store)
      !! toString t0 = Some (l_pedido ativa).
Proof.
  assert (h1 : truthy (cl_placaVeiculo pedido) = true) by reflexivity.
  assert (h2 : truthy (cl_clienteId pedido) = true) by reflexivity.
  assert (h3 : veiculos s_frota !! texto (cl_placaVeiculo pedido)
               = Some (v_corolla true)) by (vm_compute; reflexivity).
  assert (h4 : locacoes s_frota !! toString t0 = None)
    by (vm_compute; reflexivity).
  do 4 (split; [assumption|]).
  destruct (locacao_gravada_antes_da_baixa t0 pedido s_frota (v_corolla true)
              h1 h2 h3) as (_ & Hnova & _).
  destruct (Hnova h4) as (Hrun & _ & Hfalha).
  split.
  - rewrite Hrun. reflexivity.
  - intros err. rewrite (Hfalha err). vm_compute. reflexivity.
Defined.

Lemma cancelamento_efeitos_witness :
  alcancavel s_alugado
  ∧ locacoes s_alugado !! "1700000000000" = Some (l_pedido ativa)
  ∧ (executar (PostCancelarLocacao "1700000000000") (nominal s_alugado)).1
    = inr (json (CSucesso true None))
  ∧ locacoes s_devolvido !! "1700000000000" = Some (l_pedido cancelada)
  ∧ veiculos s_devolvido !! "ABC123" = Some (v_corolla true).
Proof.
  assert (h1 : alcancavel s_alugado) by (repeat constructor).
  assert (h2 : locacoes s_alugado !! "1700000000000" = Some (l_pedido ativa))
    by (vm_compute; reflexivity).
  do 2 (split; [assumption|]).
  destruct (cancelamento_efeitos s_alugado "1700000000000" (l_pedido ativa)
              h1 h2) as (s' & Hrun & Hl & _ & _ & Hv).
  unfold s_devolvido, apos. fold (nominal s_alugado). rewrite Hrun.
  cbn [fst snd store nominal]. split; [reflexivity|].
  assert (h3 : veiculos s_alugado !! placaVeiculo (l_pedido ativa)
               = Some (v_corolla false)) by (vm_compute; reflexivity).
  rewrite h3 in Hv. destruct Hv as [Hv _]. rewrite Hl, Hv.
  split; [apply lookup_insert_eq | apply lookup_insert_eq].
Defined.

Lemma exclusao_de_cliente_witness :
  clientes s_alugado !! "C1" = None
  ∧ (executar (DeleteClientes "C1") (nominal s_alugado)).1
    = inr (statusJson 404 (CSucesso false (Some "Cliente não encontrado")))
  ∧ is_Some (clientes s_cliente !! "1700000000002")
  ∧ (executar (DeleteClientes "1700000000002") (nominal s_cliente)).1
    = inr (json (CSucesso true (Some "Cliente excluído com sucesso")))
  ∧ temLocacoesAtivas "C1"
      ([("1", l_pedido cancelada)] ++ ("2", l_pedido ativa)
                                   :: [("3", l_pedido ativa)])
    = (true, 2%nat).
Proof.
  destruct (exclusao_de_cliente s_alugado "C1") as (H404 & _ & _ & Hbreak).
  destruct (exclusao_de_cliente s_cliente "1700000000002")
    as (_ & _ & Hdel & _).
  assert (h1 : clientes s_alugado !! "C1" = None) by (vm_compute; reflexivity).
  assert (h2 : clientes s_cliente !! "1700000000002"
               = Some {| nome := Some "Maria";
                         email := Some "maria@example.com";
                         telefone := None |}) by (vm_compute; reflexivity).
  split; [exact h1|]. split; [rewrite (H404 h1); reflexivity|].
  split; [rewrite h2; eauto|]. split.
  - destruct (Hdel _ h2) as (s' & Hrun & _).
    + intros k l Hl [Hc _].
      assert (Hk : locacoes s_cliente
                   = {[ "1700000000000" := l_pedido ativa ]})
        by (vm_compute; reflexivity).
      rewrite Hk in Hl. apply lookup_singleton_Some in Hl as [_ <-].
      discriminate.
    + rewrite Hrun. reflexivity.
  - apply (Hbreak [("1", l_pedido cancelada)] "2" (l_pedido ativa)
             [("3", l_pedido ativa)]); [|reflexivity|reflexivity].
    intros k' l' Hin [_ Hs].
    apply list_elem_of_singleton in Hin. simplify_eq.
Defined.

(** What the table client makes of a value that is not a string, in the
    scenario: it throws before any call. *)
Definition erroDeTipo : RestError :=
  {| statusCode := 0; message := "input.replace is not a function" |}.

Definition clienteRecusa (agora : N) (c : @CorpoLocacaoJson Z)
  : @M Z unit :=
  throw erroDeTipo.

Definition postLocacoesZ (agora : N) (c : @CorpoLocacaoJson Z) :=
  postLocacoesJson (Z.eqb 0) clienteRecusa agora c.

(** A body with both required fields present, the plate being the number 0. *)
Definition pedidoPlacaZero : @CorpoLocacaoJson Z :=
  {| cj_placaVeiculo := JNumero 0; cj_clienteId := JTexto "C1";
     cj_dataInicio := Some "2024-01-01"; cj_dataFim := Some "2024-01-05";
     cj_valor := 600 |}.

(** C4 fails as the specification words it: both required fields are
    present in the body, the plate being the empty string, and the handler
    answers 400; so it does when the plate is the number 0. *)
Lemma locacao_placa_vazia_contraexemplo :
  cj_placaVeiculo (corpoJson pedidoPlacaVazia) ≠ JAusente
  ∧ cj_clienteId (corpoJson pedidoPlacaVazia) ≠ JAusente
  ∧ postLocacoesZ t0 (corpoJson pedidoPlacaVazia) (nominal s_frota)
    = (inr (statusJson 400
              (CSucesso false (Some "Campos obrigatórios ausentes."))),
       nominal s_frota)
  ∧ cj_placaVeiculo pedidoPlacaZero ≠ JAusente
  ∧ cj_clienteId pedidoPlacaZero ≠ JAusente
  ∧ postLocacoesZ t0 pedidoPlacaZero (nominal s_frota)
    = (inr (statusJson 400
              (CSucesso false (Some "Campos obrigatórios ausentes."))),
       nominal s_frota).
Proof. repeat split; discriminate. Qed.

Lemma locacao_validacao_witness :
  (∃ resp w', postLocacoesZ t0 pedidoPlacaZero (nominal s_frota) = (inr resp, w')
              ∧ codigo resp = 400)
  ∧ "ZZZ999" ≠ ""
  ∧ "C1" ≠ ""
  ∧ veiculos s_frota !! "ZZZ999" = None
  ∧ locacoes s_frota !! toString t0 = None
  ∧ ∃ s', postLocacoesZ t0 (corpoJson pedidoOrfao) (nominal s_frota)
          = (inr (json (CSucesso true None)), nominal s')
          ∧ (l_marca <$> locacoes s' !! toString t0) = Some "---"
          ∧ (l_modelo <$> locacoes s' !! toString t0) = Some "---"
          ∧ veiculos s' = veiculos s_frota.
Proof.
  split.
  - destruct (locacao_validacao (Z.eqb 0) clienteRecusa t0) as [H _].
    destruct (H pedidoPlacaZero (nominal s_frota))
      as (resp & w' & Hrun & Hiff & _).
    exists resp, w'. split; [exact Hrun|].
    apply Hiff. left. right; right; right; left. exists 0. split; reflexivity.
  - destruct (locacao_validacao (Z.eqb 0) clienteRecusa t0) as [_ H].
    assert (h1 : "ZZZ999" ≠ "") by discriminate.
    assert (h2 : "C1" ≠ "") by discriminate.
    assert (h3 : veiculos s_frota !! "ZZZ999" = None)
      by (vm_compute; reflexivity).
    assert (h4 : locacoes s_frota !! toString t0 = None)
      by (vm_compute; reflexivity).
    do 4 (split; [assumption|]).
    eexists. split;
      [exact (H "ZZZ999" "C1" (Some "2024-01-01") (Some "2024-01-05") 600
                s_frota h1 h2 h3 h4)|].
    cbn [locacoes veiculos]. rewrite lookup_insert_eq. auto.
Defined.

(** C5 fails as the specification words it: after the vehicle ABC123 is
    rented twice and the first rental is cancelled, the state, a reachable one, holds the
    vehicle with [disponivel] true and an active rental on its plate. *)
Lemma disponibilidade_inconsistente_contraexemplo :
  alcancavel s_cancelado
  ∧ veiculos s_cancelado !! "ABC123" = Some (v_corolla true)
  ∧ locacoes s_cancelado !! "1700000000001" = Some (l_pedido ativa)
  ∧ ¬ consistente s_cancelado.
Proof.
  assert (Hv : veiculos s_cancelado !! "ABC123" = Some (v_corolla true))
    by (vm_compute; reflexivity).
  assert (Hl : locacoes s_cancelado !! "1700000000001"
               = Some (l_pedido ativa)) by (vm_compute; reflexivity).
  split; [repeat constructor|]. split; [exact Hv|]. split; [exact Hl|].
  exact (inconsistente_livre _ _ _ _ _ Hv eq_refl Hl eq_refl eq_refl).
Qed.

(** Each clause of the discipline is needed: a vehicle registered
    unavailable; a rental asked for a plate that is registered afterwards; a
    cancelled rental cancelled again while a later rental of the vehicle is
    active; the write of the flag failing. *)
Example disciplina_necessaria :
  ¬ consistente
      (apos (PostVeiculos
               {| cv_marca := Some "Toyota"; cv_modelo := Some "Corolla";
                  cv_ano := 2020; cv_placa := "ABC123";
                  cv_precoDiaria := 150; cv_disponivel := Texto "false";
                  cv_arquivo := None |}) [] vazio)
  ∧ ¬ consistente
        (apos (PostVeiculos corolla) [] (apos (PostLocacoes t0 pedido) [] vazio))
  ∧ ¬ consistente
        (apos (PostCancelarLocacao "1700000000000") []
           (apos (PostLocacoes t1 pedido) [] s_devolvido))
  ∧ ¬ consistente
        (apos (PostLocacoes t0 pedido) [None; None; Some naoEncontrado]
           s_frota).
Proof.
  split; [|split; [|split]].
  - apply (inconsistente_preso _ "ABC123" (v_corolla false));
      [vm_compute; reflexivity | reflexivity |].
    intros id l H. vm_compute in H. discriminate.
  - apply (inconsistente_livre _ "ABC123" (v_corolla true) "1700000000000"
             (entidade pedido None));
      try reflexivity; vm_compute; reflexivity.
  - apply (inconsistente_livre _ "ABC123" (v_corolla true) "1700000000001"
             (l_pedido ativa));
      try reflexivity; vm_compute; reflexivity.
  - apply (inconsistente_livre _ "ABC123" (v_corolla true) "1700000000000"
             (l_pedido ativa));
      try reflexivity; vm_compute; reflexivity.
Qed.

Lemma disponibilidade_consistente_witness :
  alcancavelDisciplinado s_alugado
  ∧ veiculos s_alugado !! "ABC123" = Some (v_corolla false)
  ∧ ∃ id l, locacoes s_alugado !! id = Some l
            ∧ placaVeiculo l = "ABC123" ∧ status l = ativa.
Proof.
  assert (h1 : alcancavelDisciplinado s_alugado).
  { unfold s_alugado, s_frota.
    apply ad_passo; [apply ad_passo; [apply ad_vazio | reflexivity]|].
    exists (v_corolla true). split; [vm_compute; reflexivity | reflexivity]. }
  assert (h2 : veiculos s_alugado !! "ABC123" = Some (v_corolla false))
    by (vm_compute; reflexivity).
  do 2 (split; [assumption|]).
  destruct (disponibilidade_consistente s_alugado h1 "ABC123"
              (v_corolla false) h2) as [H _].
  apply H. reflexivity.
Defined.

Lemma cancelamento_idempotente_witness :
  locacoes s_devolvido !! "1700000000000" = Some (l_pedido cancelada)
  ∧ status (l_pedido cancelada) = cancelada
  ∧ apos (PostCancelarLocacao "1700000000000") [] s_devolvido = s_devolvido
  ∧ ∃ s', executar (PostCancelarLocacao "1700000000000")
            (nominal s_devolvido)
          = (inr (json (CSucesso true None)), nominal s')
          ∧ locacoes s' = locacoes s_devolvido.
Proof.
  assert (h1 : locacoes s_devolvido !! "1700000000000"
               = Some (l_pedido cancelada)) by (vm_compute; reflexivity).
  split; [exact h1|]. split; [reflexivity|].
  destruct (cancelamento_idempotente s_alugado "1700000000000")
    as (Hduas & _ & _).
  split; [exact Hduas|].
  destruct (cancelamento_idempotente s_devolvido "1700000000000")
    as (_ & _ & H).
  destruct (H (l_pedido cancelada) h1 eq_refl) as (s' & Hrun & Hl & _).
  exists s'. auto.
Defined.

(** C7 fails as the specification words it: the query [?marca=] supplies
    the brand filter, as the empty string, and the listing answers the vehicle ABC123,
    whose brand is not the empty string. *)
Lemma disponiveis_filtro_vazio_contraexemplo :
  executar (GetVeiculosDisponiveis (Some "") None) (nominal s_frota)
  = (inr (json (CVeiculos [("ABC123", v_corolla true)])), nominal s_frota)
  ∧ marca (v_corolla true) ≠ Some "".
Proof. split; [vm_compute; reflexivity | discriminate]. Qed.

Lemma status_so_avanca_witness :
  locacoes s_alugado !! "1700000000000" = Some (l_pedido ativa)
  ∧ ∃ l', locacoes
            (executarTodas
               [(PostCancelarLocacao "1700000000000", []);
                (PostLocacoes t0 pedido, []);
                (PostCancelarLocacao "1700000000000", [Some jaExiste])]
               s_alugado) !! "1700000000000" = Some l'
          ∧ (l' = l_pedido ativa
             ∨ status (l_pedido ativa) = ativa
               ∧ l' = mergeStatus cancelada (l_pedido ativa)).
Proof.
  assert (h1 : locacoes s_alugado !! "1700000000000" = Some (l_pedido ativa))
    by (vm_compute; reflexivity).
  split; [exact h1|].
  destruct (status_so_avanca
              [(PostCancelarLocacao "1700000000000", []);
               (PostLocacoes t0 pedido, []);
               (PostCancelarLocacao "1700000000000", [Some jaExiste])]
              s_alugado "1700000000000" (l_pedido ativa) h1)
    as (l' & Hl' & E & _).
  exists l'. auto.
Defined.

Lemma veiculo_so_muda_disponivel_witness :
  veiculos s_frota !! "ABC123" = Some (v_corolla true)
  ∧ (∃ v', veiculos (apos (PostLocacoes t0 pedido) [] s_frota) !! "ABC123"
           = Some v'
           ∧ mesmosAtributos (v_corolla true) v')
  ∧ (∃ v', veiculos
             (apos (PostCancelarLocacao "1700000000000") [] s_frota)
           !! "ABC123" = Some v'
           ∧ mesmosAtributos (v_corolla true) v').
Proof.
  assert (h1 : veiculos s_frota !! "ABC123" = Some (v_corolla true))
    by (vm_compute; reflexivity).
  split; [exact h1|].
  destruct (veiculo_so_muda_disponivel [] s_frota "ABC123" (v_corolla true) h1)
    as [Hcria Hcancela].
  split.
  - destruct (Hcria t0 pedido) as (v' & Hv' & _ & Hm). eauto.
  - destruct (Hcancela "1700000000000") as (v' & Hv' & _ & Hm). eauto.
Defined.

Lemma locacao_ignora_disponibilidade_witness :
  truthy (cl_placaVeiculo pedido) = true
  ∧ truthy (cl_clienteId pedido) = true
  ∧ veiculos s_alugado !! texto (cl_placaVeiculo pedido)
    = Some (v_corolla false)
  ∧ disponivel (v_corolla false) = false
  ∧ locacoes s_alugado !! "1700000000000" = Some (l_pedido ativa)
  ∧ status (l_pedido ativa) = ativa
  ∧ placaVeiculo (l_pedido ativa) = texto (cl_placaVeiculo pedido)
  ∧ locacoes s_alugado !! toString t1 = None
  ∧ ∃ s', executar (PostLocacoes t1 pedido) (nominal s_alugado)
          = (inr (json (CSucesso true None)), nominal s')
          ∧ locacoes s' !! "1700000000000" = Some (l_pedido ativa)
          ∧ locacoes s' !! toString t1 = Some (entidade pedido (Some (v_corolla false)))
          ∧ status (entidade pedido (Some (v_corolla false))) = ativa.
Proof.
  assert (h3 : veiculos s_alugado !! texto (cl_placaVeiculo pedido)
               = Some (v_corolla false)) by (vm_compute; reflexivity).
  assert (h5 : locacoes s_alugado !! "1700000000000" = Some (l_pedido ativa))
    by (vm_compute; reflexivity).
  assert (h8 : locacoes s_alugado !! toString t1 = None)
    by (vm_compute; reflexivity).
  split; [reflexivity|]. split; [reflexivity|]. split; [exact h3|].
  split; [reflexivity|]. split; [exact h5|]. split; [reflexivity|].
  split; [reflexivity|]. split; [exact h8|].
  destruct (locacao_ignora_disponibilidade t1 pedido s_alugado
              (v_corolla false) "1700000000000" (l_pedido ativa)
              eq_refl eq_refl h3 eq_refl h5 eq_refl eq_refl h8)
    as (_ & s' & Hrun & _ & H0 & H1 & Hs & _).
  exists s'. auto.
Defined.

(** * The further properties on the scenario *)

Definition corollaComFoto : @CorpoVeiculo Z :=
  {| cv_marca := Some "Toyota"; cv_modelo := Some "Corolla"; cv_ano := 2020;
     cv_placa := "ABC123"; cv_precoDiaria := 150;
     cv_disponivel := Texto "true";
     cv_arquivo := Some "https://conta.blob.core.windows.net/fotos/corolla.png" |}.

Definition pedidoMaria : @CorpoLocacao Z :=
  {| cl_placaVeiculo := Some "ABC123"; cl_clienteId := Some "1700000000002";
     cl_dataInicio := Some "2024-01-01"; cl_dataFim := Some "2024-01-05";
     cl_valor := 600 |}.

Definition novosDados : CorpoCliente :=
  {| cc_nome := None; cc_email := Some "maria@exemplo.com.br";
     cc_telefone := Some "11999990000" |}.

Definition c_maria : Cliente :=
  {| nome := Some "Maria"; email := Some "maria@example.com";
     telefone := None |}.

(** Maria registered, then renting ABC123. *)
Definition s_maria : @Store Z := apos (PostClientes t2 maria) [] s_frota.
Definition s_maria_aluga : @Store Z :=
  apos (PostLocacoes t0 pedidoMaria) [] s_maria.

Definition erro404 : RestError :=
  {| statusCode := 404; message := "TableNotFound" |}.
Definition erro503 : RestError :=
  {| statusCode := 503; message := "ServerBusy" |}.

Definition tresTabelas : list string := ["Veiculos"; "Clientes"; "Locacoes"].

Definition p_novo : Processo :=
  {| servico := {| container := true; tabelasCriadas := ∅ |};
     azureInitialized := false; pendentes := [] |}.

Definition p_pronto : Processo :=
  {| servico := {| container := true; tabelasCriadas := ∅ |};
     azureInitialized := true; pendentes := [Some erro503] |}.

Lemma veiculos_permanentes_witness :
  veiculos s_frota !! "ABC123" = Some (v_corolla true)
  ∧ ∃ v', veiculos
            (executarTodas
               [(PostLocacoes t0 pedido, []); (PostVeiculos semMarca, []);
                (PostVeiculos corolla, [None])] s_frota) !! "ABC123"
          = Some v'
          ∧ marca v' = Some "Toyota".
Proof.
  assert (h1 : veiculos s_frota !! "ABC123" = Some (v_corolla true))
    by (vm_compute; reflexivity).
  split; [exact h1|].
  destruct (veiculos_permanentes
              [(PostLocacoes t0 pedido, []); (PostVeiculos semMarca, []);
               (PostVeiculos corolla, [None])] s_frota "ABC123"
              (v_corolla true) h1) as (v' & Hv' & Hm & _).
  exists v'. auto.
Defined.

Lemma cadastro_nao_sobrescreve_witness :
  veiculos s_frota !! cv_placa semMarca = None
  ∧ veiculos s_frota !! cv_placa corolla = Some (v_corolla true)
  ∧ apos (PostVeiculos corolla) [Some erro503] s_frota = s_frota
  ∧ (executar (PostVeiculos corolla) (nominal s_frota)).1
    = inr (statusJson 500 (CErro "EntityAlreadyExists")).
Proof.
  assert (h1 : veiculos s_frota !! cv_placa corolla = Some (v_corolla true))
    by (vm_compute; reflexivity).
  split; [vm_compute; reflexivity|]. split; [exact h1|].
  destruct (cadastro_nao_sobrescreve corolla s_frota (v_corolla true) h1)
    as [Hs Hr].
  split; [apply Hs|]. rewrite Hr. reflexivity.
Defined.

Lemma cadastro_e_listagem_witness :
  veiculos (@vazio Z) !! cv_placa corolla = None
  ∧ chaveAceita (cv_placa corolla) = true
  ∧ ∃ (v : @Veiculo Z) (s' : Store),
      executar (PostVeiculos corolla) (nominal vazio)
      = (inr (json (CSucesso true None)), nominal s')
      ∧ (cv_placa corolla, v) ∈ disponiveisDe s' None None.
Proof.
  assert (h1 : veiculos (@vazio Z) !! cv_placa corolla = None)
    by reflexivity.
  assert (h2 : chaveAceita (cv_placa corolla) = true) by reflexivity.
  split; [exact h1|]. split; [exact h2|].
  destruct (cadastro_e_listagem corolla vazio h1) as [Hok _].
  destruct (Hok h2) as (v & s' & Hrun & _ & _ & _ & _ & Hiff & _).
  exists v, s'. split; [exact Hrun|]. apply Hiff. left. reflexivity.
Defined.

Lemma cadastro_upload_falha_witness :
  cv_arquivo corollaComFoto
  = Some "https://conta.blob.core.windows.net/fotos/corolla.png"
  ∧ executar (PostVeiculos corollaComFoto)
      {| store := vazio; falhas := [Some erro503] |}
    = (inr (statusJson 500 (CErro "ServerBusy")), nominal vazio).
Proof.
  split; [reflexivity|].
  exact (cadastro_upload_falha corollaComFoto vazio _ erro503 [] eq_refl).
Defined.

Lemma atualizacao_de_cliente_witness :
  clientes s_frota !! "1700000000002" = None
  ∧ (executar (PutClientes "1700000000002" novosDados) (nominal s_frota)).1
    = inr (statusJson 500 (CErro "ResourceNotFound"))
  ∧ clientes s_maria !! "1700000000002" = Some c_maria
  ∧ ∃ c', (executar (PutClientes "1700000000002" novosDados)
             (nominal s_maria)).1 = inr (json (CSucesso true None))
          ∧ nome c' = Some "Maria"
          ∧ email c' = Some "maria@exemplo.com.br".
Proof.
  assert (h1 : clientes s_frota !! "1700000000002" = None)
    by (vm_compute; reflexivity).
  assert (h2 : clientes s_maria !! "1700000000002" = Some c_maria)
    by (vm_compute; reflexivity).
  split; [exact h1|].
  destruct (atualizacao_de_cliente "1700000000002" novosDados s_frota)
    as [H500 _].
  split; [rewrite (H500 h1); reflexivity|]. split; [exact h2|].
  destruct (atualizacao_de_cliente "1700000000002" novosDados s_maria)
    as [_ Hok].
  destruct (Hok c_maria h2) as (c' & Hrun & _ & Hn & He & _).
  exists c'. split; [rewrite Hrun; reflexivity|].
  split; [rewrite (Hn eq_refl); reflexivity | apply He; reflexivity].
Defined.

Lemma cadastro_de_cliente_no_mesmo_instante_witness :
  clientes s_frota !! toString t2 = None
  ∧ ∃ s', executar (PostClientes t2 maria) (nominal s_frota)
          = (inr (json (CSucesso true None)), nominal s')
          ∧ executar (PostClientes t2 novosDados) (nominal s')
            = (inr (statusJson 500 (CErro "EntityAlreadyExists")), nominal s').
Proof.
  assert (h1 : clientes s_frota !! toString t2 = None)
    by (vm_compute; reflexivity).
  split; [exact h1|].
  destruct (cadastro_de_cliente_no_mesmo_instante t2 maria novosDados
              s_frota h1) as (s' & Hrun & _ & _ & _ & Hdup).
  exists s'. auto.
Defined.

Lemma cliente_ida_e_volta_witness :
  clientes s_frota !! toString t2 = None
  ∧ apos (DeleteClientes (toString t2)) []
      (apos (PostClientes t2 maria) [] s_frota) = s_frota.
Proof.
  assert (h1 : clientes s_frota !! toString t2 = None)
    by (vm_compute; reflexivity).
  split; [exact h1|].
  apply (cliente_ida_e_volta t2 maria s_frota h1).
  intros k l Hl. vm_compute in Hl. discriminate.
Defined.

Lemma cliente_com_locacao_ativa_fica_witness :
  clientes s_maria_aluga !! "1700000000002" = Some c_maria
  ∧ locacoes s_maria_aluga !! "1700000000000"
    = Some (entidade pedidoMaria (Some (v_corolla true)))
  ∧ ∃ resp fs',
      executar (DeleteClientes "1700000000002")
        {| store := s_maria_aluga; falhas := [None; Some erro503; None] |}
      = (inr resp, {| store := s_maria_aluga; falhas := fs' |})
      ∧ codigo resp ≠ 200.
Proof.
  assert (h1 : clientes s_maria_aluga !! "1700000000002" = Some c_maria)
    by (vm_compute; reflexivity).
  assert (h2 : locacoes s_maria_aluga !! "1700000000000"
               = Some (entidade pedidoMaria (Some (v_corolla true))))
    by (vm_compute; reflexivity).
  split; [exact h1|]. split; [exact h2|].
  exact (cliente_com_locacao_ativa_fica "1700000000002" s_maria_aluga
           c_maria "1700000000000" _ [None; Some erro503; None]
           h1 h2 eq_refl eq_refl).
Defined.

Lemma exclusao_404_por_falha_witness :
  clientes s_maria !! "1700000000002" = Some c_maria
  ∧ statusCode erro404 = 404
  ∧ executar (DeleteClientes "1700000000002")
      {| store := s_maria; falhas := [None; Some erro404] |}
    = (inr (statusJson 404 (CSucesso false (Some "Cliente não encontrado"))),
       nominal s_maria).
Proof.
  assert (h1 : clientes s_maria !! "1700000000002" = Some c_maria)
    by (vm_compute; reflexivity).
  split; [exact h1|]. split; [reflexivity|].
  destruct (exclusao_404_por_falha "1700000000002" s_maria c_maria erro404
              h1 eq_refl) as (_ & H & _).
  exact H.
Defined.

Lemma cancelamento_falhas_witness :
  locacoes s_frota !! "1700000000000" = None
  ∧ (executar (PostCancelarLocacao "1700000000000") (nominal s_frota)).1
    = inr (statusJson 500 (CErro "ResourceNotFound"))
  ∧ locacoes s_alugado !! "1700000000000" = Some (l_pedido ativa)
  ∧ ∃ w', executar (PostCancelarLocacao "1700000000000")
            {| store := s_alugado; falhas := [None; None; Some erro503] |}
          = (inr (json (CSucesso true None)), w')
          ∧ veiculos (store w') = veiculos s_alugado.
Proof.
  assert (h1 : locacoes s_frota !! "1700000000000" = None)
    by (vm_compute; reflexivity).
  assert (h2 : locacoes s_alugado !! "1700000000000" = Some (l_pedido ativa))
    by (vm_compute; reflexivity).
  split; [exact h1|].
  destruct (cancelamento_falhas "1700000000000" s_frota) as [H500 _].
  split; [rewrite (H500 h1); reflexivity|]. split; [exact h2|].
  destruct (cancelamento_falhas "1700000000000" s_alugado) as [_ H].
  destruct (H (l_pedido ativa) erro503 h2) as [_ Hsoft].
  destruct (Hsoft [None; None; Some erro503] (or_introl eq_refl))
    as (w' & Hrun & Hst).
  exists w'. split; [exact Hrun|]. rewrite Hst. reflexivity.
Defined.

Lemma locacao_tira_da_listagem_witness :
  truthy (cl_placaVeiculo pedido) = true
  ∧ truthy (cl_clienteId pedido) = true
  ∧ veiculos s_frota !! texto (cl_placaVeiculo pedido) = Some (v_corolla true)
  ∧ locacoes s_frota !! toString t0 = None
  ∧ ∀ v', ("ABC123", v')
          ∉ disponiveisDe (apos (PostLocacoes t0 pedido) [] s_frota)
              (Some "Toyota") None.
Proof.
  assert (h3 : veiculos s_frota !! texto (cl_placaVeiculo pedido)
               = Some (v_corolla true)) by (vm_compute; reflexivity).
  assert (h4 : locacoes s_frota !! toString t0 = None)
    by (vm_compute; reflexivity).
  split; [reflexivity|]. split; [reflexivity|]. split; [exact h3|].
  split; [exact h4|].
  destruct (locacao_tira_da_listagem t0 pedido s_frota (v_corolla true)
              eq_refl eq_refl h3 h4) as [_ H].
  intros v' Hin. apply H in Hin as [Hne _]. apply Hne. reflexivity.
Defined.

Lemma aluguel_ida_e_volta_witness :
  truthy (cl_placaVeiculo pedido) = true
  ∧ truthy (cl_clienteId pedido) = true
  ∧ veiculos s_frota !! texto (cl_placaVeiculo pedido) = Some (v_corolla true)
  ∧ locacoes s_frota !! toString t0 = None
  ∧ disponivel (v_corolla true) = true
  ∧ veiculos (apos (PostCancelarLocacao (toString t0)) []
                (apos (PostLocacoes t0 pedido) [] s_frota))
    = veiculos s_frota.
Proof.
  assert (h3 : veiculos s_frota !! texto (cl_placaVeiculo pedido)
               = Some (v_corolla true)) by (vm_compute; reflexivity).
  assert (h4 : locacoes s_frota !! toString t0 = None)
    by (vm_compute; reflexivity).
  split; [reflexivity|]. split; [reflexivity|]. split; [exact h3|].
  split; [exact h4|]. split; [reflexivity|].
  destruct (aluguel_ida_e_volta t0 pedido s_frota (v_corolla true)
              eq_refl eq_refl h3 h4) as (s2 & -> & _ & _ & _ & Hv & _).
  apply Hv. reflexivity.
Defined.

Lemma nome_normalizado_witness :
  [102; 111; 116; 111; 32; 49; 46; 112; 110; 103]%N !! 4%nat = Some 32%N
  ∧ normalizarNomeArquivo [102; 111; 116; 111; 32; 49; 46; 112; 110; 103]%N
    !! 4%nat = Some 95%N.
Proof.
  assert (h1 : [102; 111; 116; 111; 32; 49; 46; 112; 110; 103]%N !! 4%nat
               = Some 32%N) by reflexivity.
  split; [exact h1|].
  destruct (nome_normalizado
              [102; 111; 116; 111; 32; 49; 46; 112; 110; 103]%N)
    as (_ & _ & H).
  exact (H 4%nat 32%N h1).
Defined.

Lemma menus_cobrem_a_listagem_witness :
  ("ABC123", v_corolla true) ∈ disponiveisDe s_frota None (Some "Corolla")
  ∧ marca (v_corolla true) = Some "Toyota"
  ∧ "Toyota" ≠ ""
  ∧ ∃ ms ds : list (option string),
      getMarcas (nominal s_frota) = (inr (200, CTextos ms), nominal s_frota)
      ∧ Some "Toyota" ∈ ms
      ∧ getModelos "Toyota" (nominal s_frota)
        = (inr (200, CTextos ds), nominal s_frota)
      ∧ Some "Corolla" ∈ ds.
Proof.
  assert (h1 : ("ABC123", v_corolla true)
               ∈ disponiveisDe s_frota None (Some "Corolla"))
    by (vm_compute; apply list_elem_of_here).
  assert (h3 : "Toyota" ≠ "") by discriminate.
  split; [exact h1|]. split; [reflexivity|]. split; [exact h3|].
  exact (menus_cobrem_a_listagem s_frota None (Some "Corolla") "ABC123"
           (v_corolla true) "Toyota" h1 eq_refl h3).
Defined.

Lemma cliente_listado_ate_excluir_witness :
  clientes s_frota !! toString t2 = None
  ∧ (∃ cs, getClientes (nominal s_maria)
           = (inr (200, CClientes cs), nominal s_maria)
           ∧ ("1700000000002", c_maria) ∈ cs)
  ∧ clientes s_maria !! "1700000000002" = Some c_maria
  ∧ ∃ cs, getClientes (nominal (apos (DeleteClientes "1700000000002") []
                                  s_maria))
          = (inr (200, CClientes cs),
             nominal (apos (DeleteClientes "1700000000002") [] s_maria))
          ∧ ("1700000000002", c_maria) ∉ cs.
Proof.
  assert (h1 : clientes s_frota !! toString t2 = None)
    by (vm_compute; reflexivity).
  assert (h2 : clientes s_maria !! "1700000000002" = Some c_maria)
    by (vm_compute; reflexivity).
  split; [exact h1|].
  destruct (cliente_listado_ate_excluir s_frota) as [Hpost _].
  split; [exact (Hpost t2 maria h1)|]. split; [exact h2|].
  destruct (cliente_listado_ate_excluir s_maria) as [_ Hdel].
  destruct (Hdel "1700000000002" c_maria h2) as (cs & Hcs & Hnot).
  - intros k l Hl. vm_compute in Hl. discriminate.
  - exists cs. split; [exact Hcs | apply Hnot].
Defined.

Lemma visao_segue_o_ciclo_witness :
  truthy (cl_placaVeiculo pedido) = true
  ∧ truthy (cl_clienteId pedido) = true
  ∧ veiculos s_frota !! texto (cl_placaVeiculo pedido) = Some (v_corolla true)
  ∧ locacoes s_frota !! toString t0 = None
  ∧ (∃ r a, getVeiculosAlugados (nominal s_alugado)
            = (inr (200, CAlugados r), nominal s_alugado)
            ∧ a ∈ r ∧ a_id a = "1700000000000"
            ∧ (va_marca <$> a_veiculo a) = Some (Some "Toyota"))
  ∧ locacoes s_alugado !! "1700000000000" = Some (l_pedido ativa)
  ∧ ∃ r, getVeiculosAlugados (nominal s_devolvido)
         = (inr (200, CAlugados r), nominal s_devolvido)
         ∧ ∀ a, a ∈ r → a_id a ≠ "1700000000000".
Proof.
  assert (h3 : veiculos s_frota !! texto (cl_placaVeiculo pedido)
               = Some (v_corolla true)) by (vm_compute; reflexivity).
  assert (h4 : locacoes s_frota !! toString t0 = None)
    by (vm_compute; reflexivity).
  assert (h5 : locacoes s_alugado !! "1700000000000" = Some (l_pedido ativa))
    by (vm_compute; reflexivity).
  split; [reflexivity|]. split; [reflexivity|]. split; [exact h3|].
  split; [exact h4|].
  destruct (visao_segue_o_ciclo s_frota) as [Hcria _].
  destruct (visao_segue_o_ciclo s_alugado) as [_ Hcancela].
  split; [|split; [exact h5 | exact (Hcancela _ _ h5)]].
  destruct (Hcria t0 pedido (v_corolla true) eq_refl eq_refl h3 h4)
    as (r & a & Hr & Hin & Hid & Hv).
  exists r, a. split; [exact Hr|]. split; [exact Hin|].
  split; [exact Hid|]. rewrite Hv. reflexivity.
Defined.

Lemma criarTabelas_nunca_falha_witness :
  pendentes p_novo = []
  ∧ ∃ w', criarTabelas tresTabelas p_novo = (inr (), w')
          ∧ tabelasCriadas (servico w')
            = list_to_set tresTabelas ∪ tabelasCriadas (servico p_novo).
Proof.
  split; [reflexivity|].
  destruct (criarTabelas_nunca_falha tresTabelas p_novo)
    as ((w' & Hrun & _ & _ & _ & _ & Hn) & _).
  exists w'. split; [exact Hrun | exact (Hn eq_refl)].
Defined.

Lemma inicializacao_uma_vez_witness :
  azureInitialized p_pronto = true
  ∧ inicializarAzure tresTabelas p_pronto = (inr (), p_pronto)
  ∧ azureInitialized p_novo = false
  ∧ ∃ w', inicializarAzure tresTabelas p_novo = (inr (), w')
          ∧ azureInitialized w' = true.
Proof.
  destruct (inicializacao_uma_vez tresTabelas p_pronto) as [Hon _].
  destruct (inicializacao_uma_vez tresTabelas p_novo) as (_ & Hoff & _).
  split; [reflexivity|]. split; [exact (Hon eq_refl)|].
  split; [reflexivity|]. specialize (Hoff eq_refl).
  destruct (inicializarAzure tresTabelas p_novo) as [[e|[]] w'] eqn:E.
  - exfalso. vm_compute in E. discriminate.
  - exists w'. split; [reflexivity | apply Hoff].
Defined.

Lemma inicializacao_sem_tabelas_witness :
  container (servico p_novo) = true
  ∧ length [erro503; erro503; erro404] = length tresTabelas
  ∧ ∃ w', inicializarAzure tresTabelas
            {| servico := servico p_novo; azureInitialized := false;
               pendentes := None :: (Some <$> [erro503; erro503; erro404])
                                    ++ [] |}
          = (inr (), w')
          ∧ azureInitialized w' = true
          ∧ tabelasCriadas (servico w') = ∅.
Proof.
  split; [reflexivity|]. split; [reflexivity|].
  destruct (inicializacao_sem_tabelas tresTabelas [erro503; erro503; erro404]
              (servico p_novo) [] eq_refl eq_refl) as (w' & Hrun & -> & _).
  eexists. split; [exact Hrun|]. split; reflexivity.
Defined.

Lemma middleware_e_health_witness :
  azureInitialized p_pronto = true
  ∧ middleware tresTabelas (health tresTabelas "2024-01-01T00:00:00.000Z")
      p_pronto
    = (Atendido Saude (Healthy true "2024-01-01T00:00:00.000Z"), p_pronto).
Proof.
  split; [reflexivity|].
  destruct (middleware_e_health tresTabelas p_pronto) as [H _].
  destruct (H Saude (health tresTabelas "2024-01-01T00:00:00.000Z"))
    as [Hon _].
  rewrite (Hon eq_refl). reflexivity.
Defined.

Lemma getAzureClients_repetido_witness :
  container {| container := false; tabelasCriadas := ∅ |} = false
  ∧ getAzureClients tresTabelas
      {| servico := {| container := false; tabelasCriadas := ∅ |};
         azureInitialized := false;
         pendentes := [None; Some erro503] |}
    = (inl erro503,
       {| servico := {| container := false; tabelasCriadas := ∅ |};
          azureInitialized := false; pendentes := [] |}).
Proof.
  split; [reflexivity|].
  destruct (getAzureClients_repetido tresTabelas
              {| container := false; tabelasCriadas := ∅ |} false)
    as (_ & H & _).
  exact (H erro503 [] eq_refl).
Defined.

Lemma locacao_so_toca_no_que_e_seu_witness :
  "1700000000000" ≠ toString t1
  ∧ "XYZ000" ≠ texto (cl_placaVeiculo pedido)
  ∧ locacoes (apos (PostLocacoes t1 pedido) [None; None; Some erro503]
                s_alugado) !! "1700000000000"
    = locacoes s_alugado !! "1700000000000"
  ∧ veiculos (apos (PostLocacoes t1 pedido) [None; None; Some erro503]
                s_alugado) !! "XYZ000"
    = veiculos s_alugado !! "XYZ000".
Proof.
  assert (h1 : "1700000000000" ≠ toString t1) by (vm_compute; discriminate).
  assert (h2 : "XYZ000" ≠ texto (cl_placaVeiculo pedido))
    by (vm_compute; discriminate).
  split; [exact h1|]. split; [exact h2|].
  destruct (locacao_so_toca_no_que_e_seu [None; None; Some erro503]
              s_alugado "1700000000000" "XYZ000") as [H _].
  destruct (H t1 pedido) as [Hl Hv].
  split; [exact (Hl h1) | exact (Hv h2)].
Defined.
